(** * BR-2026: the Electron shell of AwakenSecurity and the risk engine

    The development first gives the definitions, then the properties.

    - [Js] and [Main]: a shallow embedding of [electron/src/main.js], the
      Electron main process: [makeApiCall] and the nine IPC handlers
      registered with [ipcMain.handle].
    - [Launcher] and [Script]: a shallow embedding of the start-up script
      that probes the Vite dev server and the Python API before it spawns
      Electron ([checkPort], [waitForServices], [startElectron]).
    - [Engine] and [Watcher]: the risk analysis and download-monitoring
      engine.  Its code ([analyzer.py], [monitor.py], [config.py]) is not
      among the sources, so these definitions are modelled from the
      specification.
    - [MainFacts], [ScriptFacts], [EngineFacts], [WatcherFacts]: what is
      proved of them.

    JavaScript effects are made explicit: a thrown value is a [Threw]
    completion, console output and process events are collected in a log,
    and everything the outside world decides (the HTTP server, the network,
    the child process) is a parameter of the functions. *)

From Stdlib Require Import List String Ascii Bool Arith ZArith NArith Lia.
From Stdlib Require Import Strings.Byte DecimalString.
Import ListNotations.

Local Open Scope string_scope.
Set Warnings "-register-all".

(** ** JavaScript values and completions *)

Module Js.

(** An [Error] object: what [new Error(msg)] builds and what [node-fetch]
    rejects with ([FetchError], [AbortError], [SyntaxError] from
    [response.json()]). *)
Record Error : Type := mkError { name : string; message : string }.

(** The outcome of evaluating a statement list or awaiting a promise. *)
Inductive Completion (A : Type) : Type :=
| Returned (a : A)
| Threw (e : Error).
Arguments Returned {A} a.
Arguments Threw {A} e.

(** Parsed JSON, the values that cross the HTTP and the IPC boundary. *)
Inductive Json : Type :=
| JNull
| JBool (b : bool)
| JNum (z : Z)
| JStr (s : string)
| JArr (items : list Json)
| JObj (fields : list (string * Json)).

(** A plain object literal [{ k1: v1, ... }]. *)
Definition is_plain_object (j : Json) : bool :=
  match j with JObj _ => true | _ => false end.

Fixpoint get_field (k : string) (fields : list (string * Json)) : option Json :=
  match fields with
  | [] => None
  | (k', v) :: rest => if String.eqb k k' then Some v else get_field k rest
  end.

Definition field (k : string) (j : Json) : option Json :=
  match j with JObj fs => get_field k fs | _ => None end.

(** [`${n}`] for a non-negative integer. *)
Definition template_of_N (n : N) : string :=
  NilZero.string_of_uint (N.to_uint n).

Definition template_of_nat (n : nat) : string :=
  NilZero.string_of_uint (Nat.to_uint n).

(** [needle] occurs in [text]. *)
Definition contains (needle text : string) : Prop :=
  exists before after, text = before ++ needle ++ after.

(** [text.startsWith(start)] *)
Fixpoint starts_with (start text : string) : bool :=
  match start with
  | EmptyString => true
  | String a start' =>
      match text with
      | EmptyString => false
      | String b text' => Ascii.eqb a b && starts_with start' text'
      end
  end.

(** One call of [console.log] or [console.error]. *)
Inductive ConsoleCall : Type :=
| ConsoleLog (text : string) (data : option Json)
| ConsoleError (text : string) (err : option Error).

(** Code that writes to the console and either returns or throws. *)
Definition Eff (A : Type) : Type := (list ConsoleCall * Completion A)%type.

Definition ret {A} (a : A) : Eff A := ([], Returned a).
Definition throw {A} (e : Error) : Eff A := ([], Threw e).
Definition bind {A B} (m : Eff A) (k : A -> Eff B) : Eff B :=
  match m with
  | (log, Returned a) => let (log', r) := k a in ((log ++ log')%list, r)
  | (log, Threw e) => (log, Threw e)
  end.

(** [await p] where the promise [p] settles with the given completion. *)
Definition await {A} (settled : Completion A) : Eff A := ([], settled).

(** [try { body } catch (error) { handler }]. *)
Definition try_catch {A} (body : Eff A) (handler : Error -> Eff A) : Eff A :=
  match body with
  | (log, Returned a) => (log, Returned a)
  | (log, Threw e) => let (log', r) := handler e in ((log ++ log')%list, r)
  end.

Definition console_log (text : string) (data : option Json) : Eff unit :=
  ([ConsoleLog text data], Returned tt).
Definition console_error (text : string) (err : option Error) : Eff unit :=
  ([ConsoleError text err], Returned tt).

Definition output {A} (m : Eff A) : list ConsoleCall := fst m.
Definition completion {A} (m : Eff A) : Completion A := snd m.

End Js.

Declare Scope js_scope.
Delimit Scope js_scope with js.
Notation "x <- m ;; k" := (Js.bind m (fun x => k))
  (at level 61, m at next level, right associativity) : js_scope.
Notation "m ;;; k" := (Js.bind m (fun _ => k))
  (at level 61, right associativity) : js_scope.

(** ** [electron/src/main.js] *)

Module Main.
Import Js.
Local Open Scope js_scope.

Definition PYTHON_API_URL : string := "http://127.0.0.1:5001".

(** The request body: [JSON.stringify(v)], kept as the value it encodes. *)
Inductive Body : Type := JsonText (v : Json).

(** The [options] argument of [makeApiCall]; an absent property is [None]. *)
Record Options : Type := mkOptions {
  opt_method : option string;
  opt_body : option Body;
  opt_headers : option (list (string * string))
}.

(** [options = {}] *)
Definition no_options : Options := mkOptions None None None.

(** What [fetch] is called with. *)
Record Request : Type := mkRequest {
  req_url : string;
  req_headers : list (string * string);
  req_method : option string;
  req_body : option Body
}.

(** A [node-fetch] response: the two properties the code reads, and what
    [await response.json()] settles with. *)
Record Response : Type := mkResponse {
  ok : bool;
  status : N;
  json : Completion Json
}.

(** An argument received over IPC.  Electron passes structured clones, and
    some of them ([BigInt], cyclic objects) make [JSON.stringify] throw. *)
Inductive IpcArg : Type :=
| Plain (v : Json)
| NotSerializable (why : string).

Definition JSON_stringify (a : IpcArg) : Eff Body :=
  match a with
  | Plain v => ret (JsonText v)
  | NotSerializable why => throw (mkError "TypeError" why)
  end.

(** [JSON.stringify({ message })]: the object literal is built first. *)
Definition JSON_stringify_message (a : IpcArg) : Eff Body :=
  match a with
  | Plain v => ret (JsonText (JObj [("message", v)]))
  | NotSerializable why => throw (mkError "TypeError" why)
  end.

Section WithServer.

(** The Python API as seen through [fetch]: a rejected promise is a
    [Threw] completion. *)
Variable fetch : Request -> Completion Response.

(** The second argument of [fetch].  The spread [...options] comes after
    the [headers] property, so a [headers] property of [options]
    replaces the merged one. *)
Definition fetch_init (endpoint : string) (options : Options) : Request :=
  {| req_url := PYTHON_API_URL ++ endpoint;
     req_headers :=
       match opt_headers options with
       | Some hs => hs
       | None => [("Content-Type", "application/json")]
       end;
     req_method := opt_method options;
     req_body := opt_body options |}.

Definition makeApiCall (endpoint : string) (options : Options) : Eff Json :=
  try_catch
    (response <- await (fetch (fetch_init endpoint options)) ;;
     if negb (ok response)
     then throw (mkError "Error"
                   ("API call failed: " ++ template_of_N (status response)))
     else await (json response))
    (fun error =>
       console_error ("API call error: " ++ message error) None ;;;
       throw error).

(** The object literals the handlers return from their [catch] block. *)
Definition failure_result (error : Error) : Json :=
  JObj [("success", JBool false); ("message", JStr (message error))].

Definition monitoring_status_fallback (error : Error) : Json :=
  JObj [("isRunning", JBool false);
        ("lastActivity", JNull);
        ("alerts", JArr []);
        ("error", JStr (message error))].

Definition alerts_fallback : Json := JObj [("alerts", JArr [])].

Definition ai_status_fallback (error : Error) : Json :=
  JObj [("isActive", JBool false);
        ("contextMemorySize", JNum 0);
        ("conversationHistorySize", JNum 0);
        ("error", JStr (message error))].

Definition POST : Options := mkOptions (Some "POST") None None.

Definition start_monitoring : Eff Json :=
  try_catch
    (result <- makeApiCall "/monitor/start" POST ;;
     console_log "Monitoring started:" (Some result) ;;;
     ret result)
    (fun error =>
       console_error "Failed to start monitoring:" (Some error) ;;;
       ret (failure_result error)).

Definition stop_monitoring : Eff Json :=
  try_catch
    (result <- makeApiCall "/monitor/stop" POST ;;
     console_log "Monitoring stopped:" (Some result) ;;;
     ret result)
    (fun error =>
       console_error "Failed to stop monitoring:" (Some error) ;;;
       ret (failure_result error)).

Definition get_monitoring_status : Eff Json :=
  try_catch
    (status <- makeApiCall "/monitor/status" no_options ;;
     console_log "Monitoring status:" (Some status) ;;;
     ret status)
    (fun error =>
       console_error "Failed to get monitoring status:" (Some error) ;;;
       ret (monitoring_status_fallback error)).

Definition update_monitoring_settings (settings : IpcArg) : Eff Json :=
  try_catch
    (body <- JSON_stringify settings ;;
     result <- makeApiCall "/monitor/settings"
                 (mkOptions (Some "PUT") (Some body) None) ;;
     console_log "Settings updated:" (Some result) ;;;
     ret result)
    (fun error =>
       console_error "Failed to update settings:" (Some error) ;;;
       ret (failure_result error)).

Definition get_alerts : Eff Json :=
  try_catch
    (result <- makeApiCall "/monitor/alerts" no_options ;;
     ret result)
    (fun error =>
       console_error "Failed to get alerts:" (Some error) ;;;
       ret alerts_fallback).

Definition start_ai : Eff Json :=
  try_catch
    (result <- makeApiCall "/ai/start" POST ;;
     console_log "AI Agent started:" (Some result) ;;;
     ret result)
    (fun error =>
       console_error "Failed to start AI agent:" (Some error) ;;;
       ret (failure_result error)).

Definition stop_ai : Eff Json :=
  try_catch
    (result <- makeApiCall "/ai/stop" POST ;;
     console_log "AI Agent stopped:" (Some result) ;;;
     ret result)
    (fun error =>
       console_error "Failed to stop AI agent:" (Some error) ;;;
       ret (failure_result error)).

Definition get_ai_status : Eff Json :=
  try_catch
    (status <- makeApiCall "/ai/status" no_options ;;
     console_log "AI Agent status:" (Some status) ;;;
     ret status)
    (fun error =>
       console_error "Failed to get AI status:" (Some error) ;;;
       ret (ai_status_fallback error)).

Definition chat_with_ai (message : IpcArg) : Eff Json :=
  try_catch
    (body <- JSON_stringify_message message ;;
     result <- makeApiCall "/ai/chat"
                 (mkOptions (Some "POST") (Some body) None) ;;
     console_log "AI Chat response:" (Some result) ;;;
     ret result)
    (fun error =>
       console_error "Failed to chat with AI:" (Some error) ;;;
       ret (failure_result error)).

(** The channels registered with [ipcMain.handle], which are the ones
    [preload.js] exposes to the renderer. *)
Inductive Channel : Type :=
| StartMonitoring | StopMonitoring | GetMonitoringStatus
| UpdateMonitoringSettings | GetAlerts
| StartAi | StopAi | GetAiStatus | ChatWithAi.

Definition channel_name (ch : Channel) : string :=
  match ch with
  | StartMonitoring => "start-monitoring"
  | StopMonitoring => "stop-monitoring"
  | GetMonitoringStatus => "get-monitoring-status"
  | UpdateMonitoringSettings => "update-monitoring-settings"
  | GetAlerts => "get-alerts"
  | StartAi => "start-ai"
  | StopAi => "stop-ai"
  | GetAiStatus => "get-ai-status"
  | ChatWithAi => "chat-with-ai"
  end.

(** [ipcRenderer.invoke(channel, arg)] as the main process serves it.
    Handlers without a parameter ignore [arg]. *)
Definition invoke (ch : Channel) (arg : IpcArg) : Eff Json :=
  match ch with
  | StartMonitoring => start_monitoring
  | StopMonitoring => stop_monitoring
  | GetMonitoringStatus => get_monitoring_status
  | UpdateMonitoringSettings => update_monitoring_settings arg
  | GetAlerts => get_alerts
  | StartAi => start_ai
  | StopAi => stop_ai
  | GetAiStatus => get_ai_status
  | ChatWithAi => chat_with_ai arg
  end.

(** The API call a handler makes, with the evaluation of its arguments:
    the part of the handler's [try] block that talks to the server. *)
Definition api_call (ch : Channel) (arg : IpcArg) : Eff Json :=
  match ch with
  | StartMonitoring => makeApiCall "/monitor/start" POST
  | StopMonitoring => makeApiCall "/monitor/stop" POST
  | GetMonitoringStatus => makeApiCall "/monitor/status" no_options
  | UpdateMonitoringSettings =>
      body <- JSON_stringify arg ;;
      makeApiCall "/monitor/settings" (mkOptions (Some "PUT") (Some body) None)
  | GetAlerts => makeApiCall "/monitor/alerts" no_options
  | StartAi => makeApiCall "/ai/start" POST
  | StopAi => makeApiCall "/ai/stop" POST
  | GetAiStatus => makeApiCall "/ai/status" no_options
  | ChatWithAi =>
      body <- JSON_stringify_message arg ;;
      makeApiCall "/ai/chat" (mkOptions (Some "POST") (Some body) None)
  end.

(** The object a handler's [catch] block returns for [error]. *)
Definition fallback (ch : Channel) (error : Error) : Json :=
  match ch with
  | GetMonitoringStatus => monitoring_status_fallback error
  | GetAlerts => alerts_fallback
  | GetAiStatus => ai_status_fallback error
  | _ => failure_result error
  end.

End WithServer.

(** A server that answers every request with status 404 and a JSON body. *)
Definition not_found_server (_ : Request) : Completion Response :=
  Returned (mkResponse false 404 (Returned JNull)).

(** A server that cannot be reached. *)
Definition unreachable_server (_ : Request) : Completion Response :=
  Threw (mkError "FetchError" "connect ECONNREFUSED 127.0.0.1:5001").

End Main.

(** ** The start-up script: [checkPort], [waitForServices], [startElectron] *)

Module Launcher.
Import Js.

(** How the peer answers one TCP connection attempt, in milliseconds from
    [socket.connect]. *)
Inductive NetBehaviour : Type :=
| Accepts (after_ms : N)
| Refuses (after_ms : N)
| Silent.

(** The socket events [checkPort] listens to. *)
Inductive SocketEvent : Type := EvConnect | EvTimeout | EvError.

(** The first event a socket with idle timeout [timeout_ms] emits. *)
Definition socket_event (timeout_ms : N) (b : NetBehaviour) : SocketEvent :=
  match b with
  | Accepts t => if (t <? timeout_ms)%N then EvConnect else EvTimeout
  | Refuses t => if (t <? timeout_ms)%N then EvError else EvTimeout
  | Silent => EvTimeout
  end.

(** What the child process started by [spawn] does. *)
Inductive ChildBehaviour : Type :=
| ChildCloses (code : option N)
| ChildFails (e : Error)
| ChildKeepsRunning.

(** What the script does to the outside, in order. *)
Inductive ProcessEvent : Type :=
| Console (text : string)
| ConsoleErr (text : string) (err : option Error)
| SocketSetTimeout (port : N) (ms : N)
| SocketConnect (port : N) (host : string)
| SocketDestroy (port : N)
| Timer (ms : N)
| Spawn (command : string) (args : list string) (node_env : string)
| Exit (code : option N).

(** The state of the process: how many connections it has opened so far,
    and its events. *)
Record Proc : Type := mkProc {
  connections : nat;
  events : list ProcessEvent
}.

Definition start : Proc := mkProc 0 [].

Inductive Outcome (A : Type) : Type :=
| Done (a : A)
| Raised (e : Error)
| Exited
| OutOfFuel.
Arguments Done {A} a.
Arguments Raised {A} e.
Arguments Exited {A}.
Arguments OutOfFuel {A}.

Definition Run (A : Type) : Type := Proc -> Proc * Outcome A.

Definition pure {A} (a : A) : Run A := fun p => (p, Done a).
Definition and_then {A B} (m : Run A) (k : A -> Run B) : Run B :=
  fun p =>
    match m p with
    | (p', Done a) => k a p'
    | (p', Raised e) => (p', Raised e)
    | (p', Exited) => (p', Exited)
    | (p', OutOfFuel) => (p', OutOfFuel)
    end.

Definition emit (e : ProcessEvent) : Run unit :=
  fun p => (mkProc (connections p) (events p ++ [e]), Done tt).

Definition log_line (text : string) : Run unit := emit (Console text).

(** [process.exit(code)]: nothing after it runs. *)
Definition process_exit {A} (code : option N) : Run A :=
  fun p => (mkProc (connections p) (events p ++ [Exit code]), Exited).

(** A settled promise. *)
Inductive Settled (A : Type) : Type :=
| Fulfilled (a : A)
| Rejected (e : Error).
Arguments Fulfilled {A} a.
Arguments Rejected {A} e.

Definition await_promise {A} (m : Run (Settled A)) : Run A :=
  fun p =>
    match m p with
    | (p', Done (Fulfilled a)) => (p', Done a)
    | (p', Done (Rejected e)) => (p', Raised e)
    | (p', Raised e) => (p', Raised e)
    | (p', Exited) => (p', Exited)
    | (p', OutOfFuel) => (p', OutOfFuel)
    end.

Definition outcome {A} (r : Proc * Outcome A) : Outcome A := snd r.
Definition final {A} (r : Proc * Outcome A) : Proc := fst r.

End Launcher.

Declare Scope run_scope.
Delimit Scope run_scope with run.
Notation "x <~ m ;; k" := (Launcher.and_then m (fun x => k))
  (at level 61, m at next level, right associativity) : run_scope.
Notation "m >> k" := (Launcher.and_then m (fun _ => k))
  (at level 61, right associativity) : run_scope.

Module Script.
Import Js Launcher.
Local Open Scope run_scope.

Definition nl : string := String (ascii_of_nat 10) "".

(** A TCP port number. *)
Definition is_port (port : N) : Prop := (port <= 65535)%N.

Section WithNetwork.

(** The network: how the [k]-th connection the process opens, to [port] on
    localhost, is answered. *)
Variable net : nat -> N -> NetBehaviour.

(** The message of the [RangeError] with code [ERR_SOCKET_BAD_PORT] that
    Node throws for a number that is not a port (for one below 10^21, which
    JavaScript prints in decimal). *)
Definition bad_port_message (port : N) : string :=
  "Port should be >= 0 and < 65536. Received type number ("
  ++ template_of_N port ++ ").".

(** [socket.connect(port, 'localhost')].  Node checks the port before it
    does anything else and throws [ERR_SOCKET_BAD_PORT] for a number that
    is not a port. *)
Definition socket_connect (port : N) : Run SocketEvent :=
  fun p =>
    if (65535 <? port)%N
    then (p, Raised (mkError "RangeError" (bad_port_message port)))
    else (mkProc (S (connections p))
                 (events p ++ [SocketConnect port "localhost"]),
          Done (socket_event 2000 (net (connections p) port))).

(** [new Promise((resolve) => ...)]: an executor that throws rejects the
    promise, otherwise the promise settles with the first [resolve]. *)
Definition new_Promise {A} (executor : Run A) : Run (Settled A) :=
  fun p =>
    match executor p with
    | (p', Done a) => (p', Done (Fulfilled a))
    | (p', Raised e) => (p', Done (Rejected e))
    | (p', Exited) => (p', Exited)
    | (p', OutOfFuel) => (p', OutOfFuel)
    end.

(** The ['timeout'] listener of [checkPort]. *)
Definition on_timeout (port : N) (name : string) : Run bool :=
  log_line ("⏳ Waiting for " ++ name ++ " on port "
            ++ template_of_N port ++ "...") >>
  emit (SocketDestroy port) >>
  pure false.

(** The idle timer armed by [socket.setTimeout(2000)] is cancelled when a
    listener destroys the socket.  When [socket.connect] threw, no listener
    has run: the promise is rejected, the timer is still armed, and in a
    process that is still running 2000 ms later it fires: the ['timeout']
    listener logs and destroys the socket that never connected, and its
    [resolve(false)] comes after the promise has settled and changes
    nothing. *)
Definition idle_timer_fires (port : N) (name : string)
  (promise : Run (Settled bool)) : Run (Settled bool) :=
  fun p =>
    match promise p with
    | (p', Done (Rejected e)) =>
        (final (on_timeout port name p'), Done (Rejected e))
    | settled => settled
    end.

Definition checkPort (port : N) (name : string) : Run (Settled bool) :=
  idle_timer_fires port name
    (new_Promise
       (emit (SocketSetTimeout port 2000) >>
        ev <~ socket_connect port ;;
        match ev with
        | EvConnect =>
            log_line ("✅ " ++ name ++ " is ready on port "
                      ++ template_of_N port) >>
            emit (SocketDestroy port) >>
            pure true
        | EvTimeout => on_timeout port name
        | EvError =>
            log_line ("⏳ Waiting for " ++ name ++ " on port "
                      ++ template_of_N port ++ "...") >>
            emit (SocketDestroy port) >>
            pure false
        end)).

Definition maxAttempts : nat := 30.

(** The [while] loop of [waitForServices], entered with the current value of
    [attempts].  [None] is JavaScript's [undefined], the value of a function
    that falls off its end.  Each iteration uses one unit of [fuel]. *)
Fixpoint waitForServices_loop (fuel attempts : nat) : Run (option bool) :=
  match fuel with
  | O => fun p => (p, OutOfFuel)
  | S fuel' =>
      if (attempts <? maxAttempts)%nat then
        let attempts := S attempts in
        log_line (nl ++ "--- Attempt " ++ template_of_nat attempts ++ "/"
                     ++ template_of_nat maxAttempts ++ " ---") >>
        viteReady <~ await_promise (checkPort 3000 "Vite Dev Server") ;;
        apiReady <~ await_promise (checkPort 5001 "Python API") ;;
        if viteReady && apiReady then
          log_line "All services ready! Starting Electron..." >>
          pure (Some true)
        else if (maxAttempts <=? attempts)%nat then
          log_line "Timeout waiting for services" >>
          pure (Some false)
        else
          emit (Timer 2000) >>
          waitForServices_loop fuel' attempts
      else pure None
  end.

Definition waitForServices (fuel : nat) : Run (option bool) :=
  log_line "Waiting for services to be ready..." >>
  waitForServices_loop fuel 0.

(** [!servicesReady] *)
Definition not_truthy (v : option bool) : bool :=
  match v with Some true => false | _ => true end.

Definition template_of_code (code : option N) : string :=
  match code with Some n => template_of_N n | None => "null" end.

Variable child : ChildBehaviour.

Definition startElectron (fuel : nat) : Run unit :=
  servicesReady <~ waitForServices fuel ;;
  (if not_truthy servicesReady then
     log_line "Failed to start services. Please check:" >>
     log_line "1. Python API server is running: python3 api_server.py" >>
     log_line "2. Vite dev server is running: npm run start:renderer" >>
     process_exit (Some 1%N)
   else pure tt) >>
  log_line "Launching Electron app..." >>
  emit (Spawn "electron" ["."] "development") >>
  match child with
  | ChildCloses code =>
      log_line ("Electron process exited with code "
                ++ template_of_code code) >>
      process_exit code
  | ChildFails error =>
      emit (ConsoleErr "Failed to start Electron:" (Some error)) >>
      process_exit (Some 1%N)
  | ChildKeepsRunning => pure tt
  end.

(** The last line of the script: [startElectron().catch(console.error)]. *)
Definition main (fuel : nat) : Run unit :=
  fun p =>
    match startElectron fuel p with
    | (p', Raised error) =>
        (mkProc (connections p') (events p' ++ [ConsoleErr "" (Some error)]),
         Done tt)
    | finished => finished
    end.

End WithNetwork.

(** The attempt number [k] (from 1) opens connections [2k-2] and [2k-1];
    it finds the services ready when both are accepted in time. *)
Definition connects (b : NetBehaviour) : bool :=
  match socket_event 2000 b with EvConnect => true | _ => false end.

Definition attempt_ready (net : nat -> N -> NetBehaviour) (base k : nat)
  : bool :=
  connects (net (base + 2 * (k - 1)) 3000%N)
  && connects (net (base + 2 * (k - 1) + 1) 5001%N).

Definition is_spawn (e : ProcessEvent) : bool :=
  match e with Spawn _ _ _ => true | _ => false end.

(** The rhythm of [waitForServices]: where an attempt starts (its banner is
    printed) and where the script waits on a timer. *)
Inductive Marker : Type := AttemptStart | Delay (ms : N).

Definition marker_of (e : ProcessEvent) : option Marker :=
  match e with
  | Console text =>
      if starts_with (nl ++ "--- Attempt ") text then Some AttemptStart
      else None
  | Timer ms => Some (Delay ms)
  | _ => None
  end.

Fixpoint markers (evs : list ProcessEvent) : list Marker :=
  match evs with
  | [] => []
  | e :: rest =>
      match marker_of e with
      | Some m => m :: markers rest
      | None => markers rest
      end
  end.

(** [n] attempts, each two separated by a delay of 2000 ms. *)
Fixpoint spaced_attempts (n : nat) : list Marker :=
  match n with
  | O => []
  | S O => [AttemptStart]
  | S k => AttemptStart :: Delay 2000 :: spaced_attempts k
  end.

(** A network on which nothing listens: every connection is refused after
    one millisecond. *)
Definition nothing_listens (_ : nat) (_ : N) : NetBehaviour := Refuses 1.

End Script.

(** ** The risk engine

    The sources contain the Electron shell only; the engine
    ([analyzer.py], [monitor.py], [config.py]) is absent.  Every definition
    of this module is therefore written from the specification, section by
    section. *)

Module Engine.

(** *** Data model (specification, section 3) *)

Inductive TargetKind : Type := File | Url.

(** Modelled from the spec: the Target of [analyzer.py], "kind (File | Url),
    raw identifier (path or URL string), optional declared MIME/extension". *)
Record Target : Type := mkTarget {
  kind : TargetKind;
  raw : string;
  declared : option string
}.

(** Modelled from the spec: the Fingerprint of [analyzer.py], "for files, a
    cryptographic content digest plus size; for URLs, a normalized-string
    hash". *)
Inductive Fingerprint : Type :=
| FileFp (content_digest : list byte) (size : N)
| UrlFp (url_hash : list byte).

Definition Fingerprint_eq_dec (a b : Fingerprint) : {a = b} + {a <> b}.
Proof.
  decide equality; try apply N.eq_dec; apply (list_eq_dec Byte.byte_eq_dec).
Defined.

Definition fp_eqb (a b : Fingerprint) : bool :=
  if Fingerprint_eq_dec a b then true else false.

(** Modelled from the spec: the Signal of [analyzer.py], "a name, a severity
    weight, and a human-readable reason string". *)
Record Signal : Type := mkSignal {
  sig_name : string;
  severity : Z;
  reason : string
}.

Inductive Level : Type := Safe | Suspicious | Dangerous | Unknown.

(** Levels from the least to the most alarming; Unknown, the absence of any
    evidence, is below Safe. *)
Definition level_rank (l : Level) : nat :=
  match l with Unknown => 0 | Safe => 1 | Suspicious => 2 | Dangerous => 3 end.

Definition level_le (a b : Level) : Prop := level_rank a <= level_rank b.

(** Modelled from the spec: the Verdict of [analyzer.py], "Fingerprint, a
    risk level, an ordered list of Signals that produced it, the timestamp
    of computation, and a source flag indicating whether remote lookups
    contributed".  A Target that cannot be read has no Fingerprint. *)
Record Verdict : Type := mkVerdict {
  v_fingerprint : option Fingerprint;
  v_level : Level;
  v_signals : list Signal;
  v_timestamp : N;
  v_source_remote : bool
}.

(** Modelled from the spec: the ProviderConfig of [config.py], "enabled
    flag, credential/key, base endpoint, and per-call timeout". *)
Record ProviderConfig : Type := mkProvider {
  p_name : string;
  p_enabled : bool;
  p_credential : string;
  p_endpoint : string;
  p_timeout : N
}.

(** Modelled from the spec: the configuration snapshot of [config.py]
    (section 6): the thresholds of step 5, the cache settings and the
    providers. *)
Record Config : Type := mkConfig {
  danger_threshold : Z;
  suspicious_threshold : Z;
  cache_ttl : N;
  cache_capacity : nat;
  remote_enabled : bool;
  providers : list ProviderConfig
}.

Inductive IoError : Type := Unreadable (path : string).

Inductive ProviderError : Type :=
| ProviderUnavailable | ProviderTimeout | ProviderAuthError.

(** Modelled from the spec: the reputation provider wire contract of
    [analyzer.py] (section 6): what an outbound request carries. *)
Inductive Payload : Type :=
| HashDigest (d : list byte)
| NormalizedUrl (u : string).

Record OutboundRequest : Type := mkOutbound {
  out_endpoint : string;
  out_auth : string;
  out_payload : Payload
}.

(** Modelled from the spec: the metadata the Fingerprinter of [analyzer.py]
    records, "size, extension, declared type". *)
Record Metadata : Type := mkMetadata {
  m_size : option N;
  m_extension : option string;
  m_declared : option string
}.

(** What lies outside the engine at the time of one analysis: the file
    system and the reputation providers. *)
Record World : Type := mkWorld {
  read_file : string -> option (list byte);
  provider_reply :
    ProviderConfig -> OutboundRequest -> ProviderError + list Signal
}.

(** *** Risk level (specification, section 4.3, step 5 and tie-break) *)

Definition reaches (threshold : Z) (s : Signal) : bool :=
  (threshold <=? severity s)%Z.

(** Modelled from the spec: step 5 of [analyze] in [analyzer.py],
    "Dangerous if any Signal severity >= danger threshold; Suspicious if any
    Signal severity >= suspicious threshold; Safe if Signals exist but all
    below threshold; Unknown if no Signals at all and no remote data", as
    far as the level follows from the merged Signals of step 4 alone;
    [risk_level] below adds what step 5 says of remote data. *)
Definition compute_level (cfg : Config) (signals : list Signal) : Level :=
  if existsb (reaches (danger_threshold cfg)) signals then Dangerous
  else if existsb (reaches (suspicious_threshold cfg)) signals then Suspicious
  else match signals with
       | _ :: _ => Safe
       | [] => Unknown
       end.



Definition total_severity (signals : list Signal) : Z :=
  fold_right (fun s acc => (severity s + acc)%Z) 0%Z signals.

(** Modelled from the spec: step 5 of [analyze] in [analyzer.py] in full.
    The level is Unknown "if no Signals at all and no remote data"; with no
    Signal but with remote data, the providers were consulted and reported
    nothing, and the level is Safe.  [remote_data] is the source flag of
    the Verdict, "whether remote lookups contributed". *)
Definition risk_level (cfg : Config) (signals : list Signal)
  (remote_data : bool) : Level :=
  match signals with
  | [] => if remote_data then Safe else Unknown
  | _ :: _ => compute_level cfg signals
  end.

(** *** Verdict Cache (specification, section 4.5) *)

Record CacheEntry : Type := mkEntry {
  e_key : Fingerprint;
  e_verdict : Verdict;
  e_stored_at : N
}.

(** The entries, most recently used first. *)
Definition Cache : Type := list CacheEntry.

Fixpoint find_entry (fp : Fingerprint) (c : Cache) : option CacheEntry :=
  match c with
  | [] => None
  | e :: rest => if fp_eqb fp (e_key e) then Some e else find_entry fp rest
  end.

Definition remove_key (fp : Fingerprint) (c : Cache) : Cache :=
  filter (fun e => negb (fp_eqb fp (e_key e))) c.

(** An entry is past its TTL when more than [ttl] has elapsed since it was
    stored. *)
Definition expired (ttl now : N) (e : CacheEntry) : bool :=
  (e_stored_at e + ttl <? now)%N.

(** Modelled from the spec: [get] of the Verdict Cache in [analyzer.py],
    "TTL-based expiry checked on read (an entry past TTL is treated as
    absent even if not yet evicted)"; a hit makes the entry the most
    recently used. *)
Definition cache_get (ttl now : N) (fp : Fingerprint) (c : Cache)
  : option Verdict * Cache :=
  match find_entry fp c with
  | Some e =>
      if expired ttl now e then (None, c)
      else (Some (e_verdict e), e :: remove_key fp c)
  | None => (None, c)
  end.

(** Modelled from the spec: [put] of the Verdict Cache in [analyzer.py],
    "bounded capacity with least-recently-used eviction once capacity is
    exceeded". *)
Definition cache_put (capacity : nat) (now : N) (fp : Fingerprint)
  (v : Verdict) (c : Cache) : Cache :=
  firstn capacity (mkEntry fp v now :: remove_key fp c).

(** *** Engine state *)

(** The cache, and a record of what the Reputation Client did: every
    request it sent, how often it was invoked, and how many invocations
    ended without any provider answering. *)
Record EngineState : Type := mkState {
  cache : Cache;
  outbox : list OutboundRequest;
  invocations : nat;
  failed_lookups : nat
}.

Definition initial : EngineState := mkState [] [] 0 0.

(** The extension of a file name: what follows its last dot. *)
Fixpoint after_last_dot (s : string) (acc : option string) : option string :=
  match s with
  | EmptyString => acc
  | String c rest =>
      if Ascii.eqb c "."%char then after_last_dot rest (Some EmptyString)
      else after_last_dot rest
             (option_map (fun a => a ++ String c EmptyString) acc)
  end.

Definition extension_of (path : string) : option string :=
  after_last_dot path None.

(** Modelled from the spec: the Signal of step 1 of [analyze] in
    [analyzer.py], "a Signal explaining the read failure".  The spec gives
    it no severity, and no level is computed from it. *)
Definition read_failure_signal (path : string) : Signal :=
  mkSignal "read-failure" 0 ("Could not read " ++ path).

Section WithComponents.

(** The cryptographic hash of the Fingerprinter, the URL normalization it
    applies before hashing, and the rules of the Heuristic Scorer: the
    specification names them without fixing them. *)
Variable digest : list byte -> list byte.
Variable normalize_url : string -> string.
Variable score : Target -> Metadata -> list Signal.

(** *** Fingerprinter (specification, section 4.1) *)

Definition file_fingerprint (content : list byte) : Fingerprint :=
  FileFp (digest content) (N.of_nat (List.length content)).

Definition url_fingerprint (url : string) : Fingerprint :=
  UrlFp (digest (list_byte_of_string (normalize_url url))).

(** Modelled from the spec: [fingerprint] of [analyzer.py],
    "fingerprint(Target) -> Fingerprint, fails with IoError when file
    unreadable"; the digest of the content with its size for a file, the
    hash of the normalized string for a URL. *)
Definition fingerprint (w : World) (t : Target) : IoError + Fingerprint :=
  match kind t with
  | File =>
      match read_file w (raw t) with
      | Some content => inr (file_fingerprint content)
      | None => inl (Unreadable (raw t))
      end
  | Url => inr (url_fingerprint (raw t))
  end.

Definition metadata_of (w : World) (t : Target) : Metadata :=
  match kind t with
  | File =>
      mkMetadata
        (option_map (fun c => N.of_nat (List.length c)) (read_file w (raw t)))
        (extension_of (raw t)) (declared t)
  | Url => mkMetadata None None (declared t)
  end.

(** *** Reputation Client (specification, sections 4.4 and 6) *)

(** What is disclosed about a Target: the digest of a file, the normalized
    string of a URL. *)
Definition payload_of (t : Target) (fp : Fingerprint) : Payload :=
  match fp with
  | FileFp d _ => HashDigest d
  | UrlFp _ => NormalizedUrl (normalize_url (raw t))
  end.

Definition request_for (payload : Payload) (p : ProviderConfig)
  : OutboundRequest :=
  mkOutbound (p_endpoint p) (p_credential p) payload.

Definition enabled_providers (cfg : Config) : list ProviderConfig :=
  filter p_enabled (providers cfg).

Fixpoint merge_replies (replies : list (ProviderError + list Signal))
  : list Signal :=
  match replies with
  | [] => []
  | inr signals :: rest => (signals ++ merge_replies rest)%list
  | inl _ :: rest => merge_replies rest
  end.

Definition answered (r : ProviderError + list Signal) : bool :=
  match r with inr _ => true | inl _ => false end.

(** Modelled from the spec: [query] of the Reputation Client in
    [analyzer.py]: every enabled provider is sent one request, "a single
    provider's failure must not abort the others", and the Signals of the
    providers that answered are merged. *)
Definition query (cfg : Config) (w : World) (payload : Payload)
  : list OutboundRequest * list (ProviderError + list Signal) :=
  let sent := map (request_for payload) (enabled_providers cfg) in
  (sent,
   map (fun p => provider_reply w p (request_for payload p))
       (enabled_providers cfg)).

Definition remote_wanted (cfg : Config) : bool :=
  remote_enabled cfg && existsb p_enabled (providers cfg).

(** *** Risk Engine (specification, section 4.3) *)

(** Modelled from the spec: [analyze] of [analyzer.py], steps 1 to 6 of
    section 4.3, run at time [now]. *)
Definition analyze (cfg : Config) (w : World) (now : N) (t : Target)
  (st : EngineState) : EngineState * Verdict :=
  match fingerprint w t with
  | inl (Unreadable path) =>
      (st, mkVerdict None Unknown [read_failure_signal path] now false)
  | inr fp =>
      match cache_get (cache_ttl cfg) now fp (cache st) with
      | (Some v, cache') =>
          (mkState cache' (outbox st) (invocations st) (failed_lookups st), v)
      | (None, cache') =>
          let local := score t (metadata_of w t) in
          if remote_wanted cfg then
            let (sent, replies) := query cfg w (payload_of t fp) in
            let contributed := existsb answered replies in
            let signals := (local ++ merge_replies replies)%list in
            let v := mkVerdict (Some fp)
                       (risk_level cfg signals contributed) signals
                       now contributed in
            (mkState (cache_put (cache_capacity cfg) now fp v cache')
                     (outbox st ++ sent)%list
                     (S (invocations st))
                     (if contributed then failed_lookups st
                      else S (failed_lookups st)),
             v)
          else
            let v := mkVerdict (Some fp) (risk_level cfg local false) local
                       now false in
            (mkState (cache_put (cache_capacity cfg) now fp v cache')
                     (outbox st) (invocations st) (failed_lookups st),
             v)
      end
  end.

(** One analysis request: when, of what, and in which world. *)
Record Analysis : Type := mkAnalysis {
  r_world : World;
  r_now : N;
  r_target : Target
}.

(** The engine states reached from the initial one by analyses under one
    configuration snapshot. *)
Inductive reachable (cfg : Config) : EngineState -> Prop :=
| reach_initial : reachable cfg initial
| reach_analyze st r :
    reachable cfg st ->
    reachable cfg (fst (analyze cfg (r_world r) (r_now r) (r_target r) st)).

Fixpoint run (cfg : Config) (rs : list Analysis) (st : EngineState)
  : EngineState * list Verdict :=
  match rs with
  | [] => (st, [])
  | r :: rest =>
      let (st1, v) := analyze cfg (r_world r) (r_now r) (r_target r) st in
      let (st2, vs) := run cfg rest st1 in
      (st2, v :: vs)
  end.

(** The Fingerprints other than [fp] that the analyses [rs] look up. *)
Fixpoint others (fp : Fingerprint) (rs : list Analysis) : list Fingerprint :=
  match rs with
  | [] => []
  | r :: rest =>
      match fingerprint (r_world r) (r_target r) with
      | inr fp' =>
          if fp_eqb fp' fp then others fp rest else fp' :: others fp rest
      | inl _ => others fp rest
      end
  end.

(** How many different ones they are. *)
Definition distinct_others (fp : Fingerprint) (rs : list Analysis) : nat :=
  List.length (nodup Fingerprint_eq_dec (others fp rs)).

End WithComponents.

(** A Verdict whose level is the one step 5 computes from its Signals and
    its source flag. *)
Definition consistent (cfg : Config) (v : Verdict) : Prop :=
  v_level v = risk_level cfg (v_signals v) (v_source_remote v).

(** The cache holds the entry [e], behind entries of distinct Fingerprints
    only, each other than [fp] and among [seen]. *)
Definition held (fp : Fingerprint) (e : CacheEntry) (seen : list Fingerprint)
  (c : Cache) : Prop :=
  exists before after,
    c = (before ++ e :: after)%list
    /\ NoDup (map e_key before)
    /\ forall x, In x before -> e_key x <> fp /\ In (e_key x) seen.

(** The request discloses the digest [d]. *)
Definition discloses (d : list byte) (rq : OutboundRequest) : bool :=
  match out_payload rq with
  | HashDigest d' => if list_eq_dec Byte.byte_eq_dec d d' then true else false
  | NormalizedUrl _ => false
  end.


Definition cache_consistent (cfg : Config) (c : Cache) : Prop :=
  Forall (fun e => consistent cfg (e_verdict e)) c.

(** *** Sample configuration, components and worlds *)

Definition sample_config : Config :=
  mkConfig 70 40 3600 2 true
    [mkProvider "VirusTotal" true "vt-key" "https://www.virustotal.com" 5000;
     mkProvider "Safe Browsing" false ""
       "https://safebrowsing.googleapis.com" 5000].

Definition weak_hit : Signal := mkSignal "url-shortener" 10 "URL shortener".
Definition strong_hit : Signal :=
  mkSignal "provider" 90 "Flagged by a provider".

(** Sample components: a toy digest (the first byte of the content), no
    URL normalization, and a scorer with one rule, the executable
    extension. *)
Definition first_byte (content : list byte) : list byte :=
  match content with
  | [] => [x00]
  | b :: _ => [b]
  end.

Definition keep_url (url : string) : string := url.

Definition extension_rule (t : Target) (m : Metadata) : list Signal :=
  match m_extension m with
  | Some ext =>
      if String.eqb ext "exe"
      then [mkSignal "dangerous-extension" 80 "Executable file"]
      else []
  | None => []
  end.

(** A world with one readable file, in which the provider flags everything. *)
Definition sample_world : World :=
  mkWorld
    (fun path =>
       if String.eqb path "/home/u/Downloads/invoice.pdf.exe"
       then Some [x4d; x5a; x90]
       else None)
    (fun _ _ => inr [strong_hit]).

Definition sample_file : Target :=
  mkTarget File "/home/u/Downloads/invoice.pdf.exe" None.

(** Another file, elsewhere and with other bytes, that the toy digest does
    not tell apart from [sample_file]. *)
Definition other_world : World :=
  mkWorld
    (fun path =>
       if String.eqb path "/tmp/setup.bin" then Some [x4d; x00; x01] else None)
    (fun _ _ => inl ProviderTimeout).

Definition other_file : Target := mkTarget File "/tmp/setup.bin" (Some "application/pdf").





(** Three downloads that the toy digest tells apart, in a world whose
    provider answers and reports nothing. *)
Definition three_files : World :=
  mkWorld
    (fun path =>
       if String.eqb path "/dl/a.pdf" then Some [x41]
       else if String.eqb path "/dl/b.pdf" then Some [x42]
       else if String.eqb path "/dl/c.pdf" then Some [x43]
       else None)
    (fun _ _ => inr []).

Definition file_a : Target := mkTarget File "/dl/a.pdf" None.
Definition file_b : Target := mkTarget File "/dl/b.pdf" None.
Definition file_c : Target := mkTarget File "/dl/c.pdf" None.

(** The sample configuration with a cache that holds nothing. *)
Definition no_cache_config : Config :=
  mkConfig 70 40 3600 0 true
    [mkProvider "VirusTotal" true "vt-key" "https://www.virustotal.com" 5000].


End Engine.

(** ** Directory Watcher (specification, section 4.6) *)

Module Watcher.

(** What a poll observes of a file: "its size/modification time". *)
Record Stat : Type := mkStat { st_size : N; st_mtime : N }.

Definition stat_eqb (a b : Stat) : bool :=
  (st_size a =? st_size b)%N && (st_mtime a =? st_mtime b)%N.

(** Modelled from the spec: the per-file states of the watcher in
    [monitor.py], "Idle -> Detected -> Stabilizing -> Ready".  A file that
    is being debounced remembers when it was detected and what the previous
    poll of the current debounce window saw, if there was one. *)
Inductive FileState : Type :=
| Idle
| Detected (since : N)
| Stabilizing (since : N) (last : option Stat)
| Ready.

(** What happens to one file: a creation or modification notification, a
    poll (which finds the file or finds it gone), a deletion. *)
Inductive Input : Type :=
| Notify (at_time : N)
| Poll (at_time : N) (seen : option Stat)
| Remove (at_time : N).

(** Modelled from the spec: the WatchEvent of [monitor.py], "path, detected
    timestamp, and a stabilization flag". *)
Record WatchEvent : Type := mkWatchEvent {
  we_path : string;
  we_detected : N;
  we_stabilized : bool
}.

(** Modelled from the spec: what a transition of the watcher of
    [monitor.py] can fail with, after the error taxonomy of section 7: the
    file vanished under a poll (an [IoError], "file unreadable/vanished"),
    or an input concerns a file the watcher does not hold. *)
Inductive WatcherError : Type :=
| Vanished (path : string)
| NotHeld (path : string).

(** Modelled from the spec: one transition of the watcher of [monitor.py]
    for the file at [path].  A notification moves an idle file to Detected
    and restarts the debounce window of a file that is not yet Ready; two
    consecutive polls that see the same size and modification time move it
    to Ready and emit the WatchEvent; Ready is terminal; a deletion, or a
    poll that finds the file gone, returns the file to Idle, emits nothing
    and is "not an error". *)
Definition step (path : string) (s : FileState) (i : Input)
  : WatcherError + FileState * list WatchEvent :=
  match s, i with
  | Idle, Notify t => inr (Detected t, [])
  | Idle, _ => inr (Idle, [])
  | Detected since, Notify _ => inr (Stabilizing since None, [])
  | Detected since, Poll _ (Some seen) =>
      inr (Stabilizing since (Some seen), [])
  | Stabilizing since _, Notify _ => inr (Stabilizing since None, [])
  | Stabilizing since None, Poll _ (Some seen) =>
      inr (Stabilizing since (Some seen), [])
  | Stabilizing since (Some previous), Poll _ (Some seen) =>
      if stat_eqb previous seen
      then inr (Ready, [mkWatchEvent path since true])
      else inr (Stabilizing since (Some seen), [])
  | Ready, Notify _ => inr (Ready, [])
  | Ready, Poll _ (Some _) => inr (Ready, [])
  | _, Poll _ None => inr (Idle, [])
  | _, Remove _ => inr (Idle, [])
  end.

Fixpoint file_run (path : string) (s : FileState) (inputs : list Input)
  : WatcherError + FileState * list WatchEvent :=
  match inputs with
  | [] => inr (s, [])
  | i :: rest =>
      match step path s i with
      | inl e => inl e
      | inr (s1, out1) =>
          match file_run path s1 rest with
          | inl e => inl e
          | inr (s2, out2) => inr (s2, (out1 ++ out2)%list)
          end
      end
  end.

(** The watcher of one directory: the state of each file in it, by path. *)
Definition Directory : Type := string -> FileState.

Definition empty_directory : Directory := fun _ => Idle.

Definition set_state (d : Directory) (path : string) (s : FileState) : Directory :=
  fun q => if String.eqb q path then s else d q.

Definition dir_step (d : Directory) (ev : string * Input)
  : WatcherError + Directory * list WatchEvent :=
  let (path, i) := ev in
  match step path (d path) i with
  | inl e => inl e
  | inr (s, out) => inr (set_state d path s, out)
  end.

Fixpoint dir_run (d : Directory) (evs : list (string * Input))
  : WatcherError + Directory * list WatchEvent :=
  match evs with
  | [] => inr (d, [])
  | ev :: rest =>
      match dir_step d ev with
      | inl e => inl e
      | inr (d1, out1) =>
          match dir_run d1 rest with
          | inl e => inl e
          | inr (d2, out2) => inr (d2, (out1 ++ out2)%list)
          end
      end
  end.

(** The inputs that concern one file, and the WatchEvents about it. *)
Fixpoint inputs_for (path : string) (evs : list (string * Input)) : list Input :=
  match evs with
  | [] => []
  | (q, i) :: rest =>
      if String.eqb q path then i :: inputs_for path rest
      else inputs_for path rest
  end.

Definition events_for (path : string) (out : list WatchEvent) : list WatchEvent :=
  filter (fun e => String.eqb (we_path e) path) out.

(** The file is there: the input is not a deletion, nor a poll that finds
    the file gone. *)
Definition present (i : Input) : bool :=
  match i with
  | Notify _ => true
  | Poll _ (Some _) => true
  | Poll _ None => false
  | Remove _ => false
  end.

Definition gone (i : Input) : bool := negb (present i).

(** The file stabilizes: two polls in a row, with no notification between
    them, see the same size and modification time. *)
Fixpoint stabilizes (inputs : list Input) : bool :=
  match inputs with
  | [] => false
  | Poll _ (Some a) :: rest =>
      match rest with
      | Poll _ (Some b) :: _ => stat_eqb a b || stabilizes rest
      | _ => stabilizes rest
      end
  | _ :: rest => stabilizes rest
  end.

(** A file-creation episode: the notification, at [ep_detected], of a file
    the watcher does not hold, and what happens to the file for as long as
    it is there. *)
Record Episode : Type := mkEpisode {
  ep_detected : N;
  ep_body : list Input
}.

(** The episodes of a file, read off its inputs: an episode begins with the
    first notification after the file was gone, and ends when the file is
    deleted or a poll finds it gone; what arrives about a file that is gone,
    other than a notification, belongs to no episode.  [current] is the
    episode under way, if there is one. *)
Fixpoint episodes (current : option Episode) (inputs : list Input)
  : list Episode :=
  match inputs with
  | [] =>
      match current with
      | Some ep => [ep]
      | None => []
      end
  | i :: rest =>
      match current with
      | None =>
          match i with
          | Notify t => episodes (Some (mkEpisode t [])) rest
          | _ => episodes None rest
          end
      | Some ep =>
          if present i
          then episodes
                 (Some (mkEpisode (ep_detected ep) (ep_body ep ++ [i])%list))
                 rest
          else ep :: episodes None rest
      end
  end.

(** What an episode is to produce: one WatchEvent, detected when the
    episode began, if the file stabilizes in it, and nothing otherwise. *)
Definition due (path : string) (ep : Episode) : list WatchEvent :=
  if stabilizes (ep_body ep)
  then [mkWatchEvent path (ep_detected ep) true]
  else [].

(** A file that was detected at [since] and is not Ready yet. *)
Definition debouncing (since : N) (s : FileState) : Prop :=
  s = Detected since \/ exists last, s = Stabilizing since last.

(** The polls that count towards stabilization when the inputs [body]
    arrive in state [s]: the previous poll of the window, if any, first. *)
Definition window (s : FileState) (body : list Input) : list Input :=
  match s with
  | Stabilizing _ (Some previous) => Poll 0 (Some previous) :: body
  | _ => body
  end.

(** A download that is written in two bursts while another file comes and
    goes; once analysed it is deleted, and downloaded again later. *)
Definition partial : Stat := mkStat 1024 100.
Definition complete : Stat := mkStat 4096 130.

Definition download_trace : list (string * Input) :=
  [("setup.exe", Notify 100);
   ("notes.txt", Notify 101);
   ("setup.exe", Poll 110 (Some partial));
   ("setup.exe", Notify 120);
   ("notes.txt", Remove 125);
   ("setup.exe", Poll 130 (Some complete));
   ("setup.exe", Notify 135);
   ("notes.txt", Poll 136 None);
   ("setup.exe", Poll 140 (Some complete));
   ("setup.exe", Poll 150 (Some complete));
   ("setup.exe", Poll 160 (Some complete));
   ("setup.exe", Notify 165);
   ("setup.exe", Remove 170);
   ("setup.exe", Poll 175 None);
   ("setup.exe", Notify 200);
   ("setup.exe", Poll 210 (Some partial));
   ("setup.exe", Remove 215);
   ("setup.exe", Notify 300);
   ("setup.exe", Poll 310 (Some complete));
   ("setup.exe", Poll 320 (Some complete))].

End Watcher.

(** ** [electron/src/preload.js] and the channel registry *)

Module Preload.
Import Js Main.

(** The methods of [window.electronAPI]. *)
Inductive ApiMethod : Type :=
| startMonitoring | stopMonitoring | getMonitoringStatus
| updateMonitoringSettings | getAlerts
| startAI | stopAI | getAIStatus | chatWithAI.

Definition all_methods : list ApiMethod :=
  [startMonitoring; stopMonitoring; getMonitoringStatus;
   updateMonitoringSettings; getAlerts;
   startAI; stopAI; getAIStatus; chatWithAI].

(** The channel each method passes to [ipcRenderer.invoke]. *)
Definition invoked_channel (m : ApiMethod) : string :=
  match m with
  | startMonitoring => "start-monitoring"
  | stopMonitoring => "stop-monitoring"
  | getMonitoringStatus => "get-monitoring-status"
  | updateMonitoringSettings => "update-monitoring-settings"
  | getAlerts => "get-alerts"
  | startAI => "start-ai"
  | stopAI => "stop-ai"
  | getAIStatus => "get-ai-status"
  | chatWithAI => "chat-with-ai"
  end.

(** Whether the method forwards its parameter ([settings], [message]). *)
Definition passes_argument (m : ApiMethod) : bool :=
  match m with
  | updateMonitoringSettings | chatWithAI => true
  | _ => false
  end.

(** The channels [main.js] registers with [ipcMain.handle], in order. *)
Definition registered : list Channel :=
  [StartMonitoring; StopMonitoring; GetMonitoringStatus;
   UpdateMonitoringSettings; GetAlerts;
   StartAi; StopAi; GetAiStatus; ChatWithAi].

(** The handler registered under a channel name, if any. *)
Definition handler_for (name : string) : option Channel :=
  find (fun ch => String.eqb name (channel_name ch)) registered.

(** What Electron rejects [invoke] with on a channel without handler. *)
Definition no_handler (name : string) : Error :=
  mkError "Error" ("No handler registered for '" ++ name ++ "'").

(** The value a handler's parameter has when [invoke] passes none; the
    handlers concerned declare no parameter. *)
Definition no_argument : IpcArg := Plain JNull.

Section WithApi.

Variable fetch : Request -> Completion Response.

(** [ipcRenderer.invoke(name, arg)] as answered by the main process. *)
Definition ipcRenderer_invoke (name : string) (arg : IpcArg) : Eff Json :=
  match handler_for name with
  | Some ch => invoke fetch ch arg
  | None => throw (no_handler name)
  end.

(** A call of [window.electronAPI.m(arg)]. *)
Definition electronAPI (m : ApiMethod) (arg : IpcArg) : Eff Json :=
  ipcRenderer_invoke (invoked_channel m)
    (if passes_argument m then arg else no_argument).

End WithApi.

(** The request each handler is expected to send for the argument [v]:
    the endpoints and methods of the README's API table, and the two
    [/ai] endpoints next to them. *)
Definition json_headers : list (string * string) :=
  [("Content-Type", "application/json")].

Definition expected_request (ch : Channel) (v : Json) : Request :=
  match ch with
  | StartMonitoring =>
      mkRequest "http://127.0.0.1:5001/monitor/start" json_headers
        (Some "POST") None
  | StopMonitoring =>
      mkRequest "http://127.0.0.1:5001/monitor/stop" json_headers
        (Some "POST") None
  | GetMonitoringStatus =>
      mkRequest "http://127.0.0.1:5001/monitor/status" json_headers None None
  | UpdateMonitoringSettings =>
      mkRequest "http://127.0.0.1:5001/monitor/settings" json_headers
        (Some "PUT") (Some (JsonText v))
  | GetAlerts =>
      mkRequest "http://127.0.0.1:5001/monitor/alerts" json_headers None None
  | StartAi =>
      mkRequest "http://127.0.0.1:5001/ai/start" json_headers (Some "POST") None
  | StopAi =>
      mkRequest "http://127.0.0.1:5001/ai/stop" json_headers (Some "POST") None
  | GetAiStatus =>
      mkRequest "http://127.0.0.1:5001/ai/status" json_headers None None
  | ChatWithAi =>
      mkRequest "http://127.0.0.1:5001/ai/chat" json_headers (Some "POST")
        (Some (JsonText (JObj [("message", v)])))
  end.

(** The request a handler sends for the argument it receives: none when
    the argument cannot be stringified; handlers without parameter send
    theirs whatever they are passed. *)
Definition sent_request (ch : Channel) (arg : IpcArg) : option Request :=
  match arg with
  | Plain v => Some (expected_request ch v)
  | NotSerializable _ =>
      match ch with
      | UpdateMonitoringSettings | ChatWithAi => None
      | _ => Some (expected_request ch JNull)
      end
  end.

(** The text a handler gives [console.error] in its [catch] block. *)
Definition failure_label (ch : Channel) : string :=
  match ch with
  | StartMonitoring => "Failed to start monitoring:"
  | StopMonitoring => "Failed to stop monitoring:"
  | GetMonitoringStatus => "Failed to get monitoring status:"
  | UpdateMonitoringSettings => "Failed to update settings:"
  | GetAlerts => "Failed to get alerts:"
  | StartAi => "Failed to start AI agent:"
  | StopAi => "Failed to stop AI agent:"
  | GetAiStatus => "Failed to get AI status:"
  | ChatWithAi => "Failed to chat with AI:"
  end.

Definition is_console_error (c : ConsoleCall) : bool :=
  match c with ConsoleError _ _ => true | ConsoleLog _ _ => false end.

(** A server that answers the status endpoint and is down for the rest. *)
Definition status_only (rq : Request) : Completion Response :=
  if String.eqb (req_url rq) "http://127.0.0.1:5001/monitor/status"
  then Returned (mkResponse true 200 (Returned (JObj [("isRunning", JBool true)])))
  else Threw (mkError "FetchError" "socket hang up").

(** A server that accepts everything and answers with one JSON body. *)
Definition echo_server (body : Json) (_ : Request) : Completion Response :=
  Returned (mkResponse true 200 (Returned body)).

End Preload.

(** ** The object literal [makeApiCall] passes to [fetch] *)

Module JsObject.
Import Js Main.

(** The values the properties of [options] and of the request take. *)
Inductive Value : Type :=
| VUndefined
| VString (s : string)
| VObject (props : list (string * Value)).

(** An object as its own properties, the one written last first. *)
Definition Object : Type := list (string * Value).

Fixpoint own (k : string) (o : Object) : option Value :=
  match o with
  | [] => None
  | (k', v) :: rest => if String.eqb k k' then Some v else own k rest
  end.

(** [o.k] *)
Definition member (k : string) (o : Object) : Value :=
  match own k o with Some v => v | None => VUndefined end.

(** [{ ...o, k: v }] *)
Definition with_property (k : string) (v : Value) (o : Object) : Object :=
  (k, v) :: o.

(** The characters of a string as the properties ["0"], ["1"], ... *)
Fixpoint characters (i : nat) (s : string) : Object :=
  match s with
  | EmptyString => []
  | String c rest =>
      (template_of_nat i, VString (String c EmptyString))
        :: characters (S i) rest
  end.

(** The own enumerable properties a spread [...v] copies. *)
Definition spreadable (v : Value) : Object :=
  match v with
  | VUndefined => []
  | VString s => characters 0 s
  | VObject props => props
  end.

(** [{ ...o, ...v }] *)
Definition spread (o : Object) (v : Value) : Object :=
  (spreadable v ++ o)%list.

Definition default_headers : Object :=
  [("Content-Type", VString "application/json")].

(** The second argument of [fetch] in [makeApiCall], as written:
    [{ headers: { 'Content-Type': 'application/json', ...options.headers },
       ...options }]. *)
Definition fetch_init_object (options : Object) : Object :=
  spread
    (with_property "headers"
       (VObject (spread default_headers (member "headers" options))) [])
    (VObject options).

(** The options of a caller who adds an authorization header. *)
Definition with_authorization : Object :=
  [("method", VString "POST");
   ("headers", VObject [("Authorization", VString "Bearer t")])].

Section WithStringify.

(** The text [JSON.stringify] produced for a request body. *)
Variable text_of : Body -> string.

Definition strings (hs : list (string * string)) : Object :=
  map (fun kv => (fst kv, VString (snd kv))) hs.

Definition optional (k : string) (v : option Value) (o : Object) : Object :=
  match v with Some x => with_property k x o | None => o end.

(** The [options] record of [Main] as the object the callers write. *)
Definition options_object (o : Options) : Object :=
  optional "method" (option_map VString (opt_method o))
    (optional "body" (option_map (fun b => VString (text_of b)) (opt_body o))
       (optional "headers"
          (option_map (fun hs => VObject (strings hs)) (opt_headers o)) [])).

Definition string_or_undefined (s : option string) : Value :=
  match s with Some x => VString x | None => VUndefined end.

End WithStringify.

End JsObject.

(** ** [main.js]: windows and the application life cycle *)

Module App.
Import Js.

Inductive Platform : Type := Darwin | Win32 | Linux.

Definition is_darwin (p : Platform) : bool :=
  match p with Darwin => true | _ => false end.

(** What the process finds around it: [process.platform],
    [process.env.NODE_ENV], [app.isPackaged]. *)
Record Env : Type := mkEnv {
  platform : Platform;
  NODE_ENV : option string;
  isPackaged : bool
}.

(** What a window was told to load. *)
Inductive Content : Type :=
| DevServer (url : string) (devtools : bool)
| BundledFile (under_dirname : list string).

(** A window that is open.  [awaiting_show] holds while the [once]
    listener for ['ready-to-show'] is still attached. *)
Record Window : Type := mkWindow {
  w_id : nat;
  w_content : Content;
  w_visible : bool;
  w_awaiting_show : bool
}.

Record AppState : Type := mkApp {
  ready : bool;
  windows : list Window;
  mainWindow : option nat;
  created : nat;
  has_quit : bool;
  uncaught : list Error
}.

Definition launched : AppState := mkApp false [] None 0 false [].

(** What the application is told. *)
Inductive AppEvent : Type :=
| AppReady
| Activate
| ReadyToShow (id : nat)
| Closed (id : nat).

(** [const isDev = process.env.NODE_ENV === 'development' || !app.isPackaged] *)
Definition isDev (env : Env) : bool :=
  match NODE_ENV env with
  | Some v => String.eqb v "development"
  | None => false
  end || negb (isPackaged env).

Definition content_for (env : Env) : Content :=
  if isDev env then DevServer "http://localhost:3000" true
  else BundledFile ["dist"; "index.html"].

Definition raise (e : Error) (s : AppState) : AppState :=
  mkApp (ready s) (windows s) (mainWindow s) (created s) (has_quit s)
    (uncaught s ++ [e]).

(** [createWindow()].  Electron refuses to build a [BrowserWindow] before
    the application is ready: the constructor throws and nothing is
    assigned. *)
Definition createWindow (env : Env) (s : AppState) : AppState :=
  if ready s then
    mkApp true
      (mkWindow (created s) (content_for env) false true :: windows s)
      (Some (created s)) (S (created s)) (has_quit s) (uncaught s)
  else
    raise (mkError "Error" "Cannot create BrowserWindow before app is ready") s.

Definition is_open (id : nat) (s : AppState) : bool :=
  existsb (fun w => Nat.eqb (w_id w) id) (windows s).

Definition update_window (f : Window -> Window) (id : nat) (ws : list Window)
  : list Window :=
  map (fun w => if Nat.eqb (w_id w) id then f w else w) ws.

Definition shown (w : Window) : Window :=
  mkWindow (w_id w) (w_content w) true (w_awaiting_show w).

Definition heard (w : Window) : Window :=
  mkWindow (w_id w) (w_content w) (w_visible w) false.

(** The listener [() => { mainWindow.show(); }]: it shows whatever the
    variable [mainWindow] holds at that time. *)
Definition on_ready_to_show (s : AppState) : AppState :=
  match mainWindow s with
  | None =>
      raise (mkError "TypeError" "Cannot read properties of null (reading 'show')") s
  | Some m =>
      if is_open m s then
        mkApp (ready s) (update_window shown m (windows s)) (mainWindow s)
          (created s) (has_quit s) (uncaught s)
      else raise (mkError "TypeError" "Object has been destroyed") s
  end.

(** The listener [() => { mainWindow = null; }]. *)
Definition on_closed (s : AppState) : AppState :=
  mkApp (ready s) (windows s) None (created s) (has_quit s) (uncaught s).

(** The listener of ['window-all-closed']. *)
Definition on_window_all_closed (env : Env) (s : AppState) : AppState :=
  if negb (is_darwin (platform env)) then
    mkApp (ready s) (windows s) (mainWindow s) (created s) true (uncaught s)
  else s.

(** The listener of ['activate']. *)
Definition on_activate (env : Env) (s : AppState) : AppState :=
  if Nat.eqb (List.length (windows s)) 0 then createWindow env s else s.

Definition remove_window (id : nat) (s : AppState) : AppState :=
  mkApp (ready s)
    (filter (fun w => negb (Nat.eqb (w_id w) id)) (windows s))
    (mainWindow s) (created s) (has_quit s) (uncaught s).

Definition detach_show (id : nat) (s : AppState) : AppState :=
  mkApp (ready s) (update_window heard id (windows s)) (mainWindow s)
    (created s) (has_quit s) (uncaught s).

Definition awaiting (id : nat) (s : AppState) : bool :=
  existsb (fun w => Nat.eqb (w_id w) id && w_awaiting_show w) (windows s).

(** One event.  An application that has quit hears nothing; the promise
    of [app.whenReady()] is fulfilled once; a window emits its events only
    while it is open, ['ready-to-show'] reaches its [once] listener a single
    time; when the last window is gone Electron emits
    ['window-all-closed']. *)
Definition dispatch (env : Env) (s : AppState) (e : AppEvent) : AppState :=
  if has_quit s then s else
  match e with
  | AppReady =>
      if ready s then s
      else createWindow env
             (mkApp true (windows s) (mainWindow s) (created s)
                (has_quit s) (uncaught s))
  | Activate => on_activate env s
  | ReadyToShow id =>
      if awaiting id s then on_ready_to_show (detach_show id s) else s
  | Closed id =>
      if is_open id s then
        let s1 := on_closed (remove_window id s) in
        if Nat.eqb (List.length (windows s1)) 0
        then on_window_all_closed env s1
        else s1
      else s
  end.

Definition dispatch_all (env : Env) (events : list AppEvent) (s : AppState)
  : AppState :=
  fold_left (dispatch env) events s.

(** The state of an application whose first event was [AppReady]: no
    uncaught error; no window and [mainWindow] null, or one window that
    [mainWindow] holds; the application has quit exactly when it runs
    elsewhere than on macOS and has no window. *)
Definition settled (env : Env) (s : AppState) : Prop :=
  ready s = true
  /\ uncaught s = []
  /\ match windows s with
     | [] =>
         mainWindow s = None
         /\ has_quit s = negb (is_darwin (platform env))
     | [w] =>
         mainWindow s = Some (w_id w)
         /\ has_quit s = false
         /\ w_content w = content_for env
         /\ w_visible w = negb (w_awaiting_show w)
     | _ :: _ :: _ => False
     end.

(** A packaged application on macOS and on Linux, and a user who sees the
    window, closes it and comes back to the application. *)
Definition mac_packaged : Env := mkEnv Darwin None true.
Definition linux_packaged : Env := mkEnv Linux (Some "production") true.

Definition close_and_return : list AppEvent :=
  [ReadyToShow 0; Closed 0; Activate; ReadyToShow 1].

(** The environment the start-up script gives Electron, on a machine of
    the given platform. *)
Definition spawned_env (p : Platform) (packaged : bool) (node_env : string) : Env :=
  mkEnv p (Some node_env) packaged.

End App.

(** ** The start-up script: sockets, spawned process, exit codes *)

Module Traces.
Import Js Launcher Script.

(** Sockets are used one at a time: [Some open] is the socket open after
    the events, [None] means the events open a second socket or destroy one
    that is not open. *)
Fixpoint one_socket (open : option N) (evs : list ProcessEvent)
  : option (option N) :=
  match evs with
  | [] => Some open
  | SocketConnect port _ :: rest =>
      match open with
      | None => one_socket (Some port) rest
      | Some _ => None
      end
  | SocketDestroy port :: rest =>
      match open with
      | Some q => if (port =? q)%N then one_socket None rest else None
      | None => None
      end
  | _ :: rest => one_socket open rest
  end.

Definition spawns (evs : list ProcessEvent) : list ProcessEvent :=
  filter is_spawn evs.

Fixpoint exits (evs : list ProcessEvent) : list (option N) :=
  match evs with
  | [] => []
  | Exit code :: rest => code :: exits rest
  | _ :: rest => exits rest
  end.

(** The exit the handlers of the child process ask for. *)
Definition child_exit (child : ChildBehaviour) : list (option N) :=
  match child with
  | ChildCloses code => [code]
  | ChildFails _ => [Some 1%N]
  | ChildKeepsRunning => []
  end.

(** What [startElectron] does once [waitForServices] has returned [ready]. *)
Definition after_probing (ready : bool) (child : ChildBehaviour)
  : list ProcessEvent :=
  if ready then
    [Console "Launching Electron app...";
     Spawn "electron" ["."] "development"]
    ++ match child with
       | ChildCloses code =>
           [Console ("Electron process exited with code "
                     ++ template_of_code code);
            Exit code]
       | ChildFails error =>
           [ConsoleErr "Failed to start Electron:" (Some error);
            Exit (Some 1%N)]
       | ChildKeepsRunning => []
       end
  else
    [Console "Failed to start services. Please check:";
     Console "1. Python API server is running: python3 api_server.py";
     Console "2. Vite dev server is running: npm run start:renderer";
     Exit (Some 1%N)].

(** A network on which both services listen from the third attempt on. *)
Definition ready_at_third (k : nat) (_ : N) : NetBehaviour :=
  if (4 <=? k)%nat then Accepts 5 else Refuses 1.

End Traces.

(** * Properties *)

(** ** [main.js]: [makeApiCall] and the IPC handlers *)

Module MainFacts.
Import Js Main.
Local Open Scope js_scope.

(** What [makeApiCall] does, by the outcome of [fetch]. *)
Lemma makeApiCall_ok fetch endpoint options r v :
  fetch (fetch_init endpoint options) = Returned r ->
  ok r = true -> json r = Returned v ->
  makeApiCall fetch endpoint options = ([], Returned v).
Proof.
  intros Hf Hok Hj. unfold makeApiCall, await, bind, try_catch.
  rewrite Hf, Hok. cbn. rewrite Hj. reflexivity.
Qed.

Lemma makeApiCall_not_ok fetch endpoint options r :
  fetch (fetch_init endpoint options) = Returned r ->
  ok r = false ->
  completion (makeApiCall fetch endpoint options)
  = Threw (mkError "Error" ("API call failed: " ++ template_of_N (status r))).
Proof.
  intros Hf Hok. unfold makeApiCall, await, bind, try_catch.
  rewrite Hf, Hok. reflexivity.
Qed.

Lemma makeApiCall_rejected fetch endpoint options e :
  fetch (fetch_init endpoint options) = Threw e ->
  makeApiCall fetch endpoint options
  = ([ConsoleError ("API call error: " ++ message e) None], Threw e).
Proof.
  intros Hf. unfold makeApiCall, await, bind, try_catch.
  rewrite Hf. reflexivity.
Qed.

Lemma makeApiCall_bad_body fetch endpoint options r e :
  fetch (fetch_init endpoint options) = Returned r ->
  ok r = true -> json r = Threw e ->
  makeApiCall fetch endpoint options
  = ([ConsoleError ("API call error: " ++ message e) None], Threw e).
Proof.
  intros Hf Hok Hj. unfold makeApiCall, await, bind, try_catch.
  rewrite Hf, Hok. cbn. rewrite Hj. reflexivity.
Qed.

Lemma contains_suffix (before needle : string) :
  contains needle (before ++ needle).
Proof.
  exists before, EmptyString.
  assert (E : forall s : string, s ++ "" = s).
  { induction s as [| c s IH]; cbn; [reflexivity | now rewrite IH]. }
  now rewrite E.
Qed.

Lemma makeApiCall_returns fetch endpoint options v :
  completion (makeApiCall fetch endpoint options) = Returned v <->
  exists r, fetch (fetch_init endpoint options) = Returned r
            /\ ok r = true /\ json r = Returned v.
Proof.
  split.
  - intros H.
    destruct (fetch (fetch_init endpoint options)) as [r | e] eqn:Hf.
    + destruct (ok r) eqn:Hok.
      * destruct (json r) as [v' | e] eqn:Hj.
        -- rewrite (makeApiCall_ok _ _ _ _ _ Hf Hok Hj) in H.
           cbn in H. injection H as ->. now exists r.
        -- rewrite (makeApiCall_bad_body _ _ _ _ _ Hf Hok Hj) in H.
           discriminate H.
      * rewrite (makeApiCall_not_ok _ _ _ _ Hf Hok) in H. discriminate H.
    + rewrite (makeApiCall_rejected _ _ _ _ Hf) in H. discriminate H.
  - intros (r & Hf & Hok & Hj).
    now rewrite (makeApiCall_ok _ _ _ _ _ Hf Hok Hj).
Qed.

(** C10.  [makeApiCall] returns a value exactly when [fetch] delivered a
    response with an ok status and the body of that response parsed, and the
    value is the parsed body; in every other case it throws.  A response
    that is not ok makes it throw an [Error] whose message is
    ["API call failed: "] followed by the status code.  A rejection of
    [fetch] (network error) and a rejection of [response.json()] (parse
    error) are thrown again unchanged. *)
Theorem makeApiCall_returns_iff_ok fetch endpoint options :
  (forall v,
      completion (makeApiCall fetch endpoint options) = Returned v <->
      exists r, fetch (fetch_init endpoint options) = Returned r
                /\ ok r = true /\ json r = Returned v)
  /\ ((exists e, completion (makeApiCall fetch endpoint options) = Threw e) <->
      ~ exists r v, fetch (fetch_init endpoint options) = Returned r
                    /\ ok r = true /\ json r = Returned v)
  /\ (forall r,
         fetch (fetch_init endpoint options) = Returned r -> ok r = false ->
         exists msg,
           completion (makeApiCall fetch endpoint options)
           = Threw (mkError "Error" msg)
           /\ msg = "API call failed: " ++ template_of_N (status r)
           /\ contains (template_of_N (status r)) msg)
  /\ (forall e,
         fetch (fetch_init endpoint options) = Threw e ->
         completion (makeApiCall fetch endpoint options) = Threw e)
  /\ (forall r e,
         fetch (fetch_init endpoint options) = Returned r ->
         ok r = true -> json r = Threw e ->
         completion (makeApiCall fetch endpoint options) = Threw e).
Proof.
  split; [intros v; apply makeApiCall_returns |].
  split; [| split; [| split]].
  - split.
    + intros (e & He) (r & v & Hr).
      assert (Hv : completion (makeApiCall fetch endpoint options) = Returned v)
        by (apply makeApiCall_returns; now exists r).
      congruence.
    + intros Hnone.
      destruct (completion (makeApiCall fetch endpoint options)) as [v | e] eqn:Hc;
        [| now exists e].
      apply makeApiCall_returns in Hc. destruct Hc as (r & Hr).
      exfalso. apply Hnone. now exists r, v.
  - intros r Hf Hok. eexists. split; [| split; [reflexivity |]].
    + now apply makeApiCall_not_ok.
    + apply contains_suffix.
  - intros e Hf. now rewrite (makeApiCall_rejected _ _ _ _ Hf).
  - intros r e Hf Hok Hj. now rewrite (makeApiCall_bad_body _ _ _ _ _ Hf Hok Hj).
Qed.

Lemma makeApiCall_returns_iff_ok_witness :
  completion (makeApiCall not_found_server "/monitor/status" no_options)
  = Threw (mkError "Error" "API call failed: 404").
Proof.
  destruct (makeApiCall_returns_iff_ok not_found_server "/monitor/status" no_options)
    as (_ & _ & Hnot_ok & _).
  destruct (Hnot_ok (mkResponse false 404 (Returned JNull)) eq_refl eq_refl)
    as (msg & Hthrown & Hmsg & _).
  rewrite Hthrown, Hmsg. reflexivity.
Defined.

Ltac unfold_handler :=
  unfold invoke, api_call, start_monitoring, stop_monitoring,
    get_monitoring_status, update_monitoring_settings, get_alerts,
    start_ai, stop_ai, get_ai_status, chat_with_ai,
    JSON_stringify, JSON_stringify_message;
  cbn -[makeApiCall].

(** A handler's [try] block is its API call followed by statements that
    cannot throw, so the two fail together. *)
Lemma invoke_catches fetch ch arg e :
  completion (api_call fetch ch arg) = Threw e ->
  completion (invoke fetch ch arg) = Returned (fallback ch e).
Proof.
  destruct ch; unfold_handler;
    try (destruct arg as [v | why]; cbn -[makeApiCall]);
    try (intros H; injection H as <-; reflexivity);
    match goal with
    | |- context [makeApiCall fetch ?ep ?opts] =>
        destruct (makeApiCall fetch ep opts) as [log [v' | e']];
          cbn; intros H; try discriminate H; injection H as <-; reflexivity
    end.
Qed.

Lemma invoke_never_throws fetch ch arg :
  exists v, completion (invoke fetch ch arg) = Returned v.
Proof.
  destruct ch; unfold_handler;
    try (destruct arg as [v | why]; cbn -[makeApiCall]);
    try (eexists; reflexivity);
    match goal with
    | |- context [makeApiCall fetch ?ep ?opts] =>
        destruct (makeApiCall fetch ep opts) as [log [v' | e']];
          cbn; eexists; reflexivity
    end.
Qed.

(** C1.  Each of the nine IPC handlers always returns a value and never
    throws.  When its API call fails with the error [e], the value is the
    object literal of the handler's [catch] block: a plain object that
    carries at most the message string of [e], never [e] itself. *)
Theorem ipc_handlers_return_plain_result fetch ch arg :
  (exists v, completion (invoke fetch ch arg) = Returned v)
  /\ forall e,
       completion (api_call fetch ch arg) = Threw e ->
       completion (invoke fetch ch arg) = Returned (fallback ch e)
       /\ is_plain_object (fallback ch e) = true
       /\ match ch with
          | GetAlerts => fallback ch e = JObj [("alerts", JArr [])]
          | GetMonitoringStatus | GetAiStatus =>
              field "error" (fallback ch e) = Some (JStr (message e))
          | _ =>
              field "success" (fallback ch e) = Some (JBool false)
              /\ field "message" (fallback ch e) = Some (JStr (message e))
          end.
Proof.
  split; [apply invoke_never_throws |].
  intros e H. split; [now apply invoke_catches |].
  destruct ch; cbn; auto.
Qed.

Lemma ipc_handlers_return_plain_result_witness :
  completion (invoke unreachable_server GetMonitoringStatus (Plain JNull))
  = Returned (JObj [("isRunning", JBool false);
                    ("lastActivity", JNull);
                    ("alerts", JArr []);
                    ("error", JStr "connect ECONNREFUSED 127.0.0.1:5001")]).
Proof.
  destruct (ipc_handlers_return_plain_result unreachable_server
              GetMonitoringStatus (Plain JNull)) as (_ & Hfail).
  destruct (Hfail (mkError "FetchError" "connect ECONNREFUSED 127.0.0.1:5001")
              eq_refl) as (Hret & _).
  exact Hret.
Defined.

End MainFacts.

(** ** The start-up script *)

Module ScriptFacts.
Import Js Launcher Script.
Local Open Scope run_scope.

Lemma socket_event_connect timeout b :
  socket_event timeout b = EvConnect <->
  exists t, b = Accepts t /\ (t < timeout)%N.
Proof.
  destruct b as [t | t |]; cbn.
  - destruct (N.ltb_spec t timeout); split.
    + intros _. now exists t.
    + reflexivity.
    + discriminate.
    + intros (t' & [= <-] & Hlt). lia.
  - destruct (t <? timeout)%N; split; try discriminate;
      intros (t' & [=] & _).
  - split; [discriminate | intros (t' & [=] & _)].
Qed.

(** One run of [checkPort] on a port number: it opens one connection, logs
    one line that is not an attempt banner, destroys the socket, and
    fulfils its promise with whether the connection was accepted. *)
Lemma checkPort_run net port name p :
  is_port port ->
  exists text,
    marker_of (Console text) = None /\
    checkPort net port name p
    = (mkProc (S (connections p))
              (events p ++ [SocketSetTimeout port 2000;
                            SocketConnect port "localhost";
                            Console text;
                            SocketDestroy port]),
       Done (Fulfilled (connects (net (connections p) port)))).
Proof.
  intros Hport. unfold is_port in Hport.
  unfold checkPort, idle_timer_fires, new_Promise, on_timeout, and_then,
    log_line, emit, socket_connect, connects.
  cbn.
  destruct (N.ltb_spec 65535 port) as [Hbad | _]; [lia |].
  destruct (socket_event 2000 (net (connections p) port)); cbn;
    eexists; (split; [| rewrite <- !app_assoc; reflexivity]); reflexivity.
Qed.

Lemma markers_app evs evs' : markers (evs ++ evs') = (markers evs ++ markers evs')%list.
Proof.
  induction evs as [| e evs IH]; cbn; [reflexivity |].
  destruct (marker_of e); cbn; now rewrite IH.
Qed.

Lemma spawn_app evs evs' :
  existsb is_spawn (evs ++ evs') = existsb is_spawn evs || existsb is_spawn evs'.
Proof. apply existsb_app. Qed.

Lemma loop_spec net base :
  forall fuel a p,
    a < maxAttempts -> maxAttempts - a <= fuel ->
    connections p = base + 2 * a ->
    exists n b new,
      waitForServices_loop net fuel a p
      = (mkProc (base + 2 * n) (events p ++ new), Done (Some b))
      /\ a < n <= maxAttempts
      /\ (forall j, a < j < n -> attempt_ready net base j = false)
      /\ attempt_ready net base n = b
      /\ (b = false -> n = maxAttempts)
      /\ markers new = spaced_attempts (n - a)
      /\ existsb is_spawn new = false.
Proof.
  induction fuel as [| fuel IH]; intros a p Ha Hfuel Hconn; [lia |].
  cbn [waitForServices_loop].
  destruct (Nat.ltb_spec a maxAttempts) as [_ | Hge]; [| lia].
  unfold and_then at 1. unfold log_line at 1. unfold emit at 1.
  unfold and_then at 1. unfold await_promise at 1.
  match goal with
  | |- context [checkPort net 3000%N ?nm ?q] =>
      destruct (checkPort_run net 3000%N nm q) as (t1 & Hm1 & ->); [unfold is_port; lia |]
  end.
  cbn [connections events].
  unfold and_then at 1. unfold await_promise at 1.
  match goal with
  | |- context [checkPort net 5001%N ?nm ?q] =>
      destruct (checkPort_run net 5001%N nm q) as (t2 & Hm2 & ->); [unfold is_port; lia |]
  end.
  cbn [connections events].
  assert (Hready : attempt_ready net base (S a)
                   = connects (net (connections p) 3000%N)
                     && connects (net (S (connections p)) 5001%N)).
  { unfold attempt_ready. rewrite Hconn.
    replace (base + 2 * (S a - 1)) with (base + 2 * a) by lia.
    replace (base + 2 * a + 1) with (S (base + 2 * a)) by lia.
    reflexivity. }
  rewrite <- Hready.
  pose (banner := Console (nl ++ "--- Attempt " ++ template_of_nat (S a) ++ "/"
                           ++ template_of_nat maxAttempts ++ " ---")).
  pose (probes := [banner;
                   SocketSetTimeout 3000 2000; SocketConnect 3000 "localhost";
                   Console t1; SocketDestroy 3000;
                   SocketSetTimeout 5001 2000; SocketConnect 5001 "localhost";
                   Console t2; SocketDestroy 5001]).
  assert (Hprobes : markers probes = [AttemptStart]).
  { unfold probes. cbn [markers]. rewrite Hm1, Hm2. reflexivity. }
  assert (Hquiet : existsb is_spawn probes = false) by reflexivity.
  destruct (attempt_ready net base (S a)) eqn:Hnow.
  - exists (S a), true,
      (probes ++ [Console "All services ready! Starting Electron..."])%list.
    refine (conj _ (conj _ (conj _ (conj _ (conj _ (conj _ _)))))).
    + unfold and_then, log_line, emit, pure. cbn [connections events].
      rewrite Hconn. unfold probes, banner. rewrite <- !app_assoc.
      f_equal. f_equal. lia.
    + lia.
    + intros j Hj. lia.
    + exact Hnow.
    + discriminate.
    + rewrite markers_app, Hprobes. replace (S a - a) with 1 by lia. reflexivity.
    + rewrite spawn_app, Hquiet. reflexivity.
  - destruct (Nat.leb_spec maxAttempts (S a)) as [Hlast | Hmore].
    + exists (S a), false,
        (probes ++ [Console "Timeout waiting for services"])%list.
      refine (conj _ (conj _ (conj _ (conj _ (conj _ (conj _ _)))))).
      * unfold and_then, log_line, emit, pure. cbn [connections events].
        rewrite Hconn. unfold probes, banner. rewrite <- !app_assoc.
        f_equal. f_equal. lia.
      * lia.
      * intros j Hj. lia.
      * exact Hnow.
      * intros _. lia.
      * rewrite markers_app, Hprobes. replace (S a - a) with 1 by lia. reflexivity.
      * rewrite spawn_app, Hquiet. reflexivity.
    + unfold and_then at 1. unfold emit at 1. cbn [connections events].
      match goal with
      | |- context [waitForServices_loop net fuel (S a) ?q] =>
          destruct (IH (S a) q)
            as (n & b & new & Hrun & Hn & Hbefore & Hat & Hfalse & Hmark & Hspawn);
            [lia | lia | cbn [connections]; lia |]
      end.
      exists n, b, (probes ++ [Timer 2000] ++ new)%list.
      refine (conj _ (conj _ (conj _ (conj _ (conj _ (conj _ _)))))).
      * rewrite Hrun. cbn [connections events].
        unfold probes, banner. rewrite <- !app_assoc. reflexivity.
      * lia.
      * intros j Hj. destruct (Nat.eq_dec j (S a)) as [-> | Hne];
          [exact Hnow | apply Hbefore; lia].
      * exact Hat.
      * exact Hfalse.
      * rewrite !markers_app, Hprobes, Hmark. cbn.
        replace (n - a) with (S (n - S a)) by lia.
        destruct (n - S a) as [| k] eqn:Hk; [lia | reflexivity].
      * rewrite !spawn_app, Hquiet, Hspawn. reflexivity.
Qed.

(** C8.  On a port number, [checkPort] sets a 2000 ms timeout on a new
    socket, connects it to that port on localhost, and returns a promise
    that is always fulfilled with a boolean and never rejected.  The boolean
    is [true] exactly when the connection is accepted before the timeout,
    and [false] exactly when the socket reports an error or the timeout
    fires first. *)
Theorem checkPort_resolves_boolean net port name p :
  is_port port ->
  exists b text,
    checkPort net port name p
    = (mkProc (S (connections p))
              (events p ++ [SocketSetTimeout port 2000;
                            SocketConnect port "localhost";
                            Console text;
                            SocketDestroy port]),
       Done (Fulfilled b))
    /\ (b = true <->
        exists t, net (connections p) port = Accepts t /\ (t < 2000)%N)
    /\ (b = false <->
        socket_event 2000 (net (connections p) port) = EvError
        \/ socket_event 2000 (net (connections p) port) = EvTimeout).
Proof.
  intros Hport.
  destruct (checkPort_run net port name p Hport) as (text & _ & ->).
  exists (connects (net (connections p) port)), text. split; [reflexivity |].
  rewrite <- socket_event_connect. unfold connects.
  destruct (socket_event 2000 (net (connections p) port));
    split; split; intros H; try reflexivity; try discriminate H;
    try (destruct H as [H | H]; discriminate H); auto.
Qed.

Lemma checkPort_resolves_boolean_witness :
  is_port 3000
  /\ outcome (checkPort nothing_listens 3000 "Vite Dev Server" start)
     = Done (Fulfilled false).
Proof.
  assert (Hport : is_port 3000) by (unfold is_port; lia).
  split; [exact Hport |].
  destruct (checkPort_resolves_boolean nothing_listens 3000 "Vite Dev Server"
              start Hport) as (b & text & Hrun & _ & Hfalse).
  rewrite Hrun. unfold outcome. cbn [snd]. f_equal. f_equal.
  apply Hfalse. left. reflexivity.
Defined.

Lemma waitForServices_run net fuel p :
  maxAttempts <= fuel ->
  exists n b new,
    waitForServices net fuel p
    = (mkProc (connections p + 2 * n) (events p ++ new), Done (Some b))
    /\ 1 <= n <= maxAttempts
    /\ (forall j, 1 <= j < n -> attempt_ready net (connections p) j = false)
    /\ attempt_ready net (connections p) n = b
    /\ (b = false -> n = maxAttempts)
    /\ markers new = spaced_attempts n
    /\ existsb is_spawn new = false.
Proof.
  intros Hfuel. unfold waitForServices.
  unfold and_then at 1. unfold log_line at 1. unfold emit at 1.
  match goal with
  | |- context [waitForServices_loop net fuel 0 ?q] =>
      destruct (loop_spec net (connections p) fuel 0 q)
        as (n & b & new & Hrun & Hn & Hbefore & Hat & Hfalse & Hmark & Hspawn);
        [unfold maxAttempts; lia | lia | cbn [connections]; lia |]
  end.
  exists n, b, ([Console "Waiting for services to be ready..."] ++ new)%list.
  refine (conj _ (conj _ (conj _ (conj _ (conj _ (conj _ _)))))).
  - rewrite Hrun. cbn [connections events]. rewrite <- app_assoc. reflexivity.
  - lia.
  - intros j Hj. apply Hbefore. lia.
  - exact Hat.
  - exact Hfalse.
  - rewrite markers_app, Hmark. rewrite Nat.sub_0_r. reflexivity.
  - rewrite spawn_app, Hspawn. reflexivity.
Qed.

(** C9.  Given fuel for 30 iterations, [waitForServices] returns a boolean
    after [n] attempts with [1 <= n <= 30], two successive attempts being
    separated by one 2000 ms timer.  No attempt before the last found both
    port 3000 and port 5001 accepting, and the result says whether the last
    one did: [true] at the first attempt that finds both ready, [false] only
    at attempt 30.  When the result is [false], [startElectron] ends in
    [process.exit(1)] and never calls [spawn]; when it is [true], Electron
    is spawned. *)
Theorem waitForServices_at_most_30_attempts net child fuel p :
  maxAttempts <= fuel ->
  exists n b new,
    waitForServices net fuel p
    = (mkProc (connections p + 2 * n) (events p ++ new), Done (Some b))
    /\ 1 <= n <= 30
    /\ (forall j, 1 <= j < n -> attempt_ready net (connections p) j = false)
    /\ attempt_ready net (connections p) n = b
    /\ (b = false -> n = 30)
    /\ markers new = spaced_attempts n
    /\ (b = false ->
        exists shown,
          startElectron net child fuel p
          = (mkProc (connections p + 2 * n)
                    (events p ++ new ++ shown ++ [Exit (Some 1%N)]),
             Exited)
          /\ existsb is_spawn (new ++ shown ++ [Exit (Some 1%N)]) = false)
    /\ (b = true ->
        existsb is_spawn (events (final (startElectron net child fuel p))) = true).
Proof.
  intros Hfuel.
  destruct (waitForServices_run net fuel p Hfuel)
    as (n & b & new & Hrun & Hn & Hbefore & Hat & Hfalse & Hmark & Hspawn).
  exists n, b, new.
  refine (conj Hrun (conj Hn (conj Hbefore (conj Hat (conj Hfalse (conj Hmark (conj _ _))))))).
  - intros ->.
    exists [Console "Failed to start services. Please check:";
            Console "1. Python API server is running: python3 api_server.py";
            Console "2. Vite dev server is running: npm run start:renderer"].
    split.
    + unfold startElectron. unfold and_then at 1. rewrite Hrun.
      cbn. rewrite <- !app_assoc. reflexivity.
    + rewrite spawn_app, Hspawn. reflexivity.
  - intros ->.
    unfold startElectron. unfold and_then at 1. rewrite Hrun.
    destruct child; cbn; rewrite !spawn_app; cbn;
      rewrite ?Bool.orb_true_r; reflexivity.
Qed.

Lemma waitForServices_at_most_30_attempts_witness :
  maxAttempts <= 30
  /\ outcome (waitForServices nothing_listens 30 start) = Done (Some false)
  /\ outcome (startElectron nothing_listens ChildKeepsRunning 30 start) = Exited.
Proof.
  assert (Hfuel : maxAttempts <= 30) by (unfold maxAttempts; lia).
  split; [exact Hfuel |].
  destruct (waitForServices_at_most_30_attempts nothing_listens
              ChildKeepsRunning 30 start Hfuel)
    as (n & b & new & Hrun & _ & _ & Hat & _ & _ & Hexit & _).
  assert (Hb : b = false) by (rewrite <- Hat; reflexivity).
  split.
  - rewrite Hrun, Hb. reflexivity.
  - destruct (Hexit Hb) as (shown & Hstart & _). rewrite Hstart. reflexivity.
Defined.

End ScriptFacts.

(** ** The risk engine *)

Module EngineFacts.
Import Engine.

(** *** Risk level *)






(** Adding any Signal, anywhere, never lowers the level. *)
Lemma compute_level_grows cfg before after s :
  level_le (compute_level cfg (before ++ after))
           (compute_level cfg (before ++ s :: after)).
Proof.
  unfold level_le, compute_level. rewrite !existsb_app. cbn [existsb].
  destruct (existsb (reaches (danger_threshold cfg)) before),
    (existsb (reaches (danger_threshold cfg)) after),
    (reaches (danger_threshold cfg) s),
    (existsb (reaches (suspicious_threshold cfg)) before),
    (existsb (reaches (suspicious_threshold cfg)) after),
    (reaches (suspicious_threshold cfg) s);
    destruct before, after; cbn; lia.
Qed.

(** Many weak Signals do not add up: ten hits of severity 10 stay Safe
    under a danger threshold of 70. *)
Lemma weak_hits_do_not_add_up :
  total_severity (repeat weak_hit 10) = 100%Z
  /\ compute_level sample_config (repeat weak_hit 10) = Safe
  /\ compute_level sample_config (strong_hit :: repeat weak_hit 10) = Dangerous.
Proof. repeat split. Qed.

(** C3.  For every list of Signals and every Signal [s] whose severity is
    at least that of each Signal of the list, the level computed with [s]
    added (at any position) is at least the level computed without it, in
    the order Unknown < Safe < Suspicious < Dangerous. *)
Theorem risk_level_monotonic cfg before after s :
  (forall x, In x (before ++ after) -> (severity x <= severity s)%Z) ->
  level_le (compute_level cfg (before ++ after))
           (compute_level cfg (before ++ s :: after)).
Proof.
  intros _. apply compute_level_grows.
Qed.

Lemma risk_level_monotonic_witness :
  (forall x, In x ([weak_hit] ++ [weak_hit]) ->
             (severity x <= severity strong_hit)%Z)
  /\ level_le (compute_level sample_config ([weak_hit] ++ [weak_hit]))
              (compute_level sample_config ([weak_hit] ++ strong_hit :: [weak_hit])).
Proof.
  assert (H : forall x, In x ([weak_hit] ++ [weak_hit]) ->
                        (severity x <= severity strong_hit)%Z).
  { intros x [<- | [<- | []]]; cbn; lia. }
  split; [exact H |].
  exact (risk_level_monotonic sample_config [weak_hit] [weak_hit] strong_hit H).
Defined.


(** *** Verdict Cache *)

Lemma fp_eqb_refl fp : fp_eqb fp fp = true.
Proof. unfold fp_eqb. destruct (Fingerprint_eq_dec fp fp); congruence. Qed.

Lemma fp_eqb_true a b : fp_eqb a b = true -> a = b.
Proof. unfold fp_eqb. destruct (Fingerprint_eq_dec a b); congruence. Qed.

Lemma find_entry_key fp c e : find_entry fp c = Some e -> e_key e = fp.
Proof.
  induction c as [| x c IH]; cbn; [discriminate |].
  destruct (fp_eqb fp (e_key x)) eqn:E; [| exact IH].
  intros [= <-]. symmetry. now apply fp_eqb_true.
Qed.

Lemma find_entry_in fp c e : find_entry fp c = Some e -> In e c.
Proof.
  induction c as [| x c IH]; cbn; [discriminate |].
  destruct (fp_eqb fp (e_key x)); [intros [= <-]; now left | right; auto].
Qed.

(** With room for one entry at least, what was just put is found. *)
Lemma find_entry_put capacity now fp v c :
  1 <= capacity ->
  find_entry fp (cache_put capacity now fp v c) = Some (mkEntry fp v now).
Proof.
  intros Hcap. unfold cache_put.
  destruct capacity as [| k]; [lia |].
  cbn. now rewrite fp_eqb_refl.
Qed.

Lemma cache_get_put capacity ttl stored now fp v c :
  1 <= capacity -> (now <= stored + ttl)%N ->
  fst (cache_get ttl now fp (cache_put capacity stored fp v c)) = Some v.
Proof.
  intros Hcap Hfresh. unfold cache_get.
  rewrite (find_entry_put _ _ _ _ _ Hcap). unfold expired. cbn.
  destruct (N.ltb_spec (stored + ttl) now); [lia | reflexivity].
Qed.

Lemma cache_get_hit ttl now fp c v c' :
  cache_get ttl now fp c = (Some v, c') ->
  exists e, find_entry fp c = Some e /\ e_verdict e = v
            /\ c' = e :: remove_key fp c.
Proof.
  unfold cache_get. destruct (find_entry fp c) as [e |]; [| discriminate].
  destruct (expired ttl now e); [discriminate |].
  intros [= <- <-]. now exists e.
Qed.

Lemma cache_get_miss ttl now fp c c' :
  cache_get ttl now fp c = (None, c') -> c' = c.
Proof.
  unfold cache_get. destruct (find_entry fp c) as [e |].
  - destruct (expired ttl now e); [now intros [= <-] | discriminate].
  - now intros [= <-].
Qed.

Section Analysis.

Variable digest : list byte -> list byte.
Variable normalize_url : string -> string.
Variable score : Target -> Metadata -> list Signal.

Abbreviation fingerprint := (fingerprint digest normalize_url).
Abbreviation analyze := (analyze digest normalize_url score).
Abbreviation payload_of := (payload_of normalize_url).

(** What one analysis does, by the outcome of the Fingerprinter and of the
    cache lookup. *)
Lemma analyze_unreadable cfg w now t st path :
  fingerprint w t = inl (Unreadable path) ->
  analyze cfg w now t st
  = (st, mkVerdict None Unknown [read_failure_signal path] now false).
Proof. intros H. unfold Engine.analyze. now rewrite H. Qed.

Lemma analyze_hit cfg w now t st fp v :
  fingerprint w t = inr fp ->
  fst (cache_get (cache_ttl cfg) now fp (cache st)) = Some v ->
  analyze cfg w now t st
  = (mkState (snd (cache_get (cache_ttl cfg) now fp (cache st)))
             (outbox st) (invocations st) (failed_lookups st), v).
Proof.
  intros Hfp Hget. unfold Engine.analyze. rewrite Hfp.
  destruct (cache_get (cache_ttl cfg) now fp (cache st)) as [[v' |] c'];
    cbn in Hget; [| discriminate].
  now injection Hget as ->.
Qed.

Lemma analyze_miss cfg w now t st fp :
  fingerprint w t = inr fp ->
  fst (cache_get (cache_ttl cfg) now fp (cache st)) = None ->
  exists signals contributed failed,
    let v := mkVerdict (Some fp) (risk_level cfg signals contributed) signals
               now contributed in
    analyze cfg w now t st
    = (mkState (cache_put (cache_capacity cfg) now fp v (cache st))
               (outbox st
                ++ (if remote_wanted cfg
                    then map (request_for (payload_of t fp)) (enabled_providers cfg)
                    else []))
               (if remote_wanted cfg then S (invocations st) else invocations st)
               failed,
       v).
Proof.
  intros Hfp Hget. unfold Engine.analyze. rewrite Hfp.
  destruct (cache_get (cache_ttl cfg) now fp (cache st)) as [[v' |] c'] eqn:E;
    cbn in Hget; [discriminate |].
  apply cache_get_miss in E. subst c'.
  destruct (remote_wanted cfg).
  - unfold query. do 3 eexists. cbn. reflexivity.
  - do 3 eexists. cbn. rewrite app_nil_r. reflexivity.
Qed.


Lemma cache_get_found ttl now fp c e :
  find_entry fp c = Some e -> (now <= e_stored_at e + ttl)%N ->
  fst (cache_get ttl now fp c) = Some (e_verdict e).
Proof.
  intros Hfind Hfresh. unfold cache_get, expired. rewrite Hfind.
  destruct (N.ltb_spec (e_stored_at e + ttl) now); [lia | reflexivity].
Qed.

(** *** The entry of a Fingerprint survives the analyses of others *)

Lemma fp_eqb_false a b : a <> b -> fp_eqb a b = false.
Proof. unfold fp_eqb. destruct (Fingerprint_eq_dec a b); congruence. Qed.

Lemma in_remove_key fp c x :
  In x (remove_key fp c) -> In x c /\ e_key x <> fp.
Proof.
  unfold remove_key. rewrite filter_In. intros (Hin & Hkeep).
  split; [exact Hin |]. intros Heq. rewrite Heq, fp_eqb_refl in Hkeep.
  discriminate Hkeep.
Qed.

Lemma NoDup_keys_remove fp c :
  NoDup (map e_key c) -> NoDup (map e_key (remove_key fp c)).
Proof.
  induction c as [| x c IH]; cbn; [constructor |].
  intros Hnodup. apply NoDup_cons_iff in Hnodup. destruct Hnodup as (Hx & Hc).
  destruct (negb (fp_eqb fp (e_key x))); [| now apply IH].
  cbn. constructor; [| now apply IH].
  rewrite in_map_iff. intros (y & Hkey & Hy).
  apply in_remove_key in Hy. apply Hx. rewrite in_map_iff. exists y. tauto.
Qed.

(** The more Fingerprints, the more distinct ones. *)
Lemma distinct_incl (l l' : list Fingerprint) :
  incl l l' ->
  List.length (nodup Fingerprint_eq_dec l)
  <= List.length (nodup Fingerprint_eq_dec l').
Proof.
  intros Hincl. apply NoDup_incl_length; [apply NoDup_nodup |].
  intros x Hx. apply nodup_In. apply Hincl. now apply nodup_In in Hx.
Qed.

Lemma held_find fp e seen c :
  e_key e = fp -> held fp e seen c -> find_entry fp c = Some e.
Proof.
  intros Hkey (before & after & -> & _ & Hother).
  induction before as [| x before IH]; cbn [app find_entry].
  - now rewrite Hkey, fp_eqb_refl.
  - rewrite fp_eqb_false
      by (intros Heq; apply (proj1 (Hother x (or_introl eq_refl))); congruence).
    apply IH. intros y Hy. apply Hother. now right.
Qed.

Lemma held_more fp e seen seen' c :
  incl seen seen' -> held fp e seen c -> held fp e seen' c.
Proof.
  intros Hincl (before & after & Hc & Hnodup & Hother).
  exists before, after. refine (conj Hc (conj Hnodup _)).
  intros x Hx. destruct (Hother x Hx) as (Hne & Hseen). auto.
Qed.

(** Another Fingerprint's entry comes to the front: the entry of [fp] moves
    back by one place at most, and only behind entries of Fingerprints
    looked up since. *)
Lemma held_push fp fp' x e seen c :
  e_key e = fp -> e_key x = fp' -> fp' <> fp ->
  held fp e seen c -> held fp e (fp' :: seen) (x :: remove_key fp' c).
Proof.
  intros Hkey Hx Hne (before & after & -> & Hnodup & Hother).
  exists (x :: remove_key fp' before), (remove_key fp' after).
  refine (conj _ (conj _ _)).
  - unfold remove_key. rewrite filter_app. cbn [filter app].
    rewrite Hkey, fp_eqb_false by exact Hne. reflexivity.
  - cbn [map]. rewrite Hx. constructor; [| now apply NoDup_keys_remove].
    rewrite in_map_iff. intros (y & Hy & Hin).
    apply in_remove_key in Hin. tauto.
  - intros y [<- | Hin].
    + split; [congruence | now left].
    + apply in_remove_key in Hin. destruct (Hother y (proj1 Hin)) as (H1 & H2).
      split; [exact H1 | now right].
Qed.

Lemma held_firstn fp e seen n c :
  List.length (nodup Fingerprint_eq_dec seen) < n ->
  held fp e seen c -> held fp e seen (firstn n c).
Proof.
  intros Hroom (before & after & -> & Hnodup & Hother).
  assert (Hlen : List.length before < n).
  { rewrite <- (length_map e_key before).
    apply Nat.le_lt_trans with (List.length (nodup Fingerprint_eq_dec seen));
      [| exact Hroom].
    apply NoDup_incl_length; [exact Hnodup |].
    intros k Hk. apply nodup_In. apply in_map_iff in Hk.
    destruct Hk as (x & <- & Hx). apply (Hother x Hx). }
  exists before, (firstn (n - S (List.length before)) after).
  refine (conj _ (conj Hnodup Hother)).
  rewrite firstn_app, firstn_all2 by lia.
  replace (n - List.length before) with (S (n - S (List.length before))) by lia.
  reflexivity.
Qed.

Abbreviation run := (run digest normalize_url score).
Abbreviation others := (others digest normalize_url).

Lemma others_incl fp rs : forall r fp',
  In r rs -> fingerprint (r_world r) (r_target r) = inr fp' -> fp' <> fp ->
  In fp' (others fp rs).
Proof.
  induction rs as [| r0 rs IH]; intros r fp' Hin Hfp Hne; [destruct Hin |].
  cbn [Engine.others].
  destruct Hin as [-> | Hin].
  - rewrite Hfp, fp_eqb_false by exact Hne. now left.
  - specialize (IH r fp' Hin Hfp Hne).
    destruct (fingerprint (r_world r0) (r_target r0)) as [err | fp0]; [exact IH |].
    destruct (fp_eqb fp0 fp); [exact IH | now right].
Qed.

(** After an analysis of a Target with Fingerprint [fp], the Verdict it
    returned is cached for [fp] at the front: in the entry that was found,
    if the Verdict came from the cache, and in an entry stored at the time
    of the analysis if the analysis computed it. *)
Lemma analyze_fronts cfg w now t st fp :
  1 <= cache_capacity cfg ->
  fingerprint w t = inr fp ->
  exists e,
    held fp e [] (cache (fst (analyze cfg w now t st)))
    /\ e_key e = fp
    /\ e_verdict e = snd (analyze cfg w now t st)
    /\ (fst (cache_get (cache_ttl cfg) now fp (cache st)) = None ->
        e_stored_at e = now)
    /\ (fst (cache_get (cache_ttl cfg) now fp (cache st)) <> None ->
        find_entry fp (cache st) = Some e).
Proof.
  intros Hcap Hfp.
  assert (Hfront : forall e rest, held fp e [] (e :: rest)).
  { intros e rest. exists [], rest.
    repeat split; try constructor; destruct H. }
  destruct (cache_get (cache_ttl cfg) now fp (cache st)) as [[v |] c'] eqn:Hget.
  - rewrite (analyze_hit cfg w now t st fp v Hfp) by now rewrite Hget.
    rewrite Hget. cbn [fst snd cache].
    destruct (cache_get_hit _ _ _ _ _ _ Hget) as (e & Hfind & Hv & ->).
    exists e.
    refine (conj (Hfront _ _)
              (conj (find_entry_key _ _ _ Hfind) (conj Hv (conj _ _)))).
    + discriminate.
    + intros _. exact Hfind.
  - destruct (analyze_miss cfg w now t st fp Hfp)
      as (signals & contributed & failed & ->); [now rewrite Hget |].
    cbn [fst snd cache]. unfold cache_put.
    destruct (cache_capacity cfg) as [| n]; [lia |]. cbn [firstn].
    eexists. split; [apply Hfront |].
    repeat split. intros H. now contradiction H.
Qed.

(** An entry that a lookup passes over has expired. *)
Lemma cache_get_expired ttl now fp c e :
  find_entry fp c = Some e ->
  fst (cache_get ttl now fp c) = None ->
  (e_stored_at e + ttl < now)%N.
Proof.
  intros Hfind. unfold cache_get, expired. rewrite Hfind.
  destruct (N.ltb_spec (e_stored_at e + ttl) now); [trivial | discriminate].
Qed.

(** The analysis of a Target with another Fingerprint [fp'] moves the entry
    of [fp] back by one place at most, behind the entry of [fp']. *)
Lemma analyze_holds cfg w now t st fp fp' e seen :
  e_key e = fp ->
  fingerprint w t = inr fp' -> fp' <> fp ->
  List.length (nodup Fingerprint_eq_dec (fp' :: seen)) < cache_capacity cfg ->
  held fp e seen (cache st) ->
  held fp e (fp' :: seen) (cache (fst (analyze cfg w now t st))).
Proof.
  intros Hkey Hfp Hne Hroom Hheld.
  destruct (cache_get (cache_ttl cfg) now fp' (cache st)) as [[v |] c'] eqn:Hget.
  - rewrite (analyze_hit cfg w now t st fp' v Hfp) by now rewrite Hget.
    rewrite Hget. cbn [fst snd cache].
    destruct (cache_get_hit _ _ _ _ _ _ Hget) as (e' & Hfind & _ & ->).
    apply held_push; auto. now apply find_entry_key with (cache st).
  - destruct (analyze_miss cfg w now t st fp' Hfp)
      as (signals & contributed & failed & ->); [now rewrite Hget |].
    cbn [fst cache]. unfold cache_put.
    apply held_firstn; [exact Hroom |].
    apply held_push; auto.
Qed.

(** Whatever is analysed, the cache keeps an entry for [fp], stored no
    earlier than the one it held, for as long as fewer other Fingerprints
    are looked up than the cache holds entries: the analysis of a Target
    with the Fingerprint [fp] brings its entry to the front, and replaces it
    only by a newer one.  The entry stays the same when no analysis is of
    the Fingerprint [fp]. *)
Lemma run_keeps cfg fp since :
  forall rs st seen,
    List.length (nodup Fingerprint_eq_dec (others fp rs ++ seen))
    < cache_capacity cfg ->
    (exists e, held fp e seen (cache st) /\ e_key e = fp
               /\ (since <= e_stored_at e)%N) ->
    exists e, held fp e (others fp rs ++ seen) (cache (fst (run cfg rs st)))
              /\ e_key e = fp /\ (since <= e_stored_at e)%N
              /\ ((forall r, In r rs ->
                             fingerprint (r_world r) (r_target r) <> inr fp) ->
                  find_entry fp (cache st) = Some e).
Proof.
  induction rs as [| r rs IH]; intros st seen Hroom (e & Hheld & Hkey & Hsince).
  - exists e. cbn. repeat split; auto. intros _. now apply held_find with seen.
  - cbn [Engine.run Engine.others] in *.
    pose proof (held_find fp e seen _ Hkey Hheld) as Hfind.
    destruct (fingerprint (r_world r) (r_target r)) as [[path] | fp'] eqn:Hfp.
    + (* a Target that cannot be read leaves the cache as it is *)
      pose proof (analyze_unreadable cfg (r_world r) (r_now r) (r_target r)
                    st path Hfp) as Hstep.
      destruct (Engine.analyze digest normalize_url score cfg
                  (r_world r) (r_now r) (r_target r) st) as [st1 v].
      injection Hstep as -> _.
      destruct (IH st seen Hroom) as (e' & Hheld' & Hkey' & Hsince' & Hsame').
      { exists e. auto. }
      destruct (Engine.run digest normalize_url score cfg rs st) as [st2 vs].
      exists e'. repeat split; auto.
      intros Hother. apply Hsame'. intros r' Hr'. apply Hother. now right.
    + destruct (Fingerprint_eq_dec fp' fp) as [-> | Hne].
      * (* the same Fingerprint: its entry comes to the front *)
        rewrite fp_eqb_refl in *.
        assert (Hcap : 1 <= cache_capacity cfg) by lia.
        destruct (analyze_fronts cfg (r_world r) (r_now r) (r_target r) st fp
                    Hcap Hfp) as (e1 & Hfront & Hkey1 & _ & Hmiss & Hhit).
        assert (Hsince1 : (since <= e_stored_at e1)%N).
        { destruct (fst (cache_get (cache_ttl cfg) (r_now r) fp (cache st)))
            as [v |] eqn:Hget.
          - assert (He : Some e = Some e1)
              by (rewrite <- Hfind; apply Hhit; discriminate).
            injection He as <-. exact Hsince.
          - rewrite (Hmiss eq_refl).
            pose proof (cache_get_expired _ _ _ _ _ Hfind Hget). lia. }
        destruct (Engine.analyze digest normalize_url score cfg
                    (r_world r) (r_now r) (r_target r) st) as [st1 v].
        cbn [fst] in Hfront.
        destruct (IH st1 seen Hroom) as (e' & Hheld' & Hkey' & Hsince' & _).
        { exists e1. repeat split; auto.
          apply (held_more fp e1 []); [intros x [] | exact Hfront]. }
        destruct (Engine.run digest normalize_url score cfg rs st1) as [st2 vs].
        exists e'. repeat split; auto.
        intros Hother. exfalso. now apply (Hother r (or_introl eq_refl)).
      * (* another Fingerprint *)
        rewrite fp_eqb_false in * by exact Hne. cbn [app] in Hroom.
        assert (Hstep : held fp e (fp' :: seen)
                          (cache (fst (analyze cfg (r_world r) (r_now r)
                                         (r_target r) st)))).
        { apply analyze_holds; auto.
          eapply Nat.le_lt_trans; [| exact Hroom].
          apply distinct_incl. intros x [<- | Hx]; [now left |].
          right. apply in_or_app. now right. }
        destruct (Engine.analyze digest normalize_url score cfg
                    (r_world r) (r_now r) (r_target r) st) as [st1 v].
        cbn [fst] in Hstep.
        destruct (IH st1 (fp' :: seen)) as (e' & Hheld' & Hkey' & Hsince' & Hsame').
        { eapply Nat.le_lt_trans; [| exact Hroom].
          apply distinct_incl. intros x Hx. apply in_app_or in Hx.
          destruct Hx as [Hx | [<- | Hx]];
            [right; apply in_or_app; now left | now left
            | right; apply in_or_app; now right]. }
        { exists e. auto. }
        destruct (Engine.run digest normalize_url score cfg rs st1) as [st2 vs].
        cbn [fst] in *.
        exists e'. repeat split; auto.
        -- apply (held_more fp e' (Engine.others digest normalize_url fp rs
                                   ++ fp' :: seen)); [| exact Hheld'].
           intros x Hx. apply in_app_or in Hx.
           destruct Hx as [Hx | [<- | Hx]];
             [right; apply in_or_app; now left | now left
             | right; apply in_or_app; now right].
        -- intros Hother.
           assert (Hsame : find_entry fp (cache st1) = Some e').
           { apply Hsame'. intros r' Hr'. apply Hother. now right. }
           rewrite (held_find fp e _ _ Hkey Hstep) in Hsame.
           now injection Hsame as <-.
Qed.

(** What one analysis of a Target with a Fingerprint costs: one invocation
    of the Reputation Client at most, and one request per enabled provider
    at most. *)
Lemma analyze_cost cfg w now t st fp :
  fingerprint w t = inr fp ->
  invocations st <= invocations (fst (analyze cfg w now t st))
                 <= S (invocations st)
  /\ List.length (outbox st)
     <= List.length (outbox (fst (analyze cfg w now t st)))
     <= List.length (outbox st) + List.length (enabled_providers cfg).
Proof.
  intros Hfp.
  destruct (fst (cache_get (cache_ttl cfg) now fp (cache st))) as [v |] eqn:Hget.
  - rewrite (analyze_hit cfg w now t st fp v Hfp Hget). cbn. lia.
  - destruct (analyze_miss cfg w now t st fp Hfp Hget)
      as (signals & contributed & failed & ->). cbn.
    rewrite length_app.
    destruct (remote_wanted cfg); cbn; rewrite ?length_map; lia.
Qed.

(** C4, as amended.  Take two analyses of Targets with the same
    Fingerprint, the second no later than one cache TTL after the first,
    with fewer other Fingerprints looked up between them than the cache
    holds entries.  Together the two invoke the Reputation Client at most
    once and send each enabled provider at most one request.  At the second
    analysis a Verdict is still cached for the Fingerprint; it is unexpired
    when the first analysis computed its Verdict, and it is the Verdict the
    first analysis returned when no analysis between them is of that
    Fingerprint.  When the cached Verdict is unexpired the second analysis
    returns it verbatim, invokes nothing and sends nothing. *)
Theorem two_analyses_one_lookup cfg st w1 now1 t1 between w2 now2 t2 fp :
  distinct_others digest normalize_url fp between < cache_capacity cfg ->
  fingerprint w1 t1 = inr fp ->
  fingerprint w2 t2 = inr fp ->
  (now2 <= now1 + cache_ttl cfg)%N ->
  let first := analyze cfg w1 now1 t1 st in
  let later := fst (run cfg between (fst first)) in
  let second := analyze cfg w2 now2 t2 later in
  (invocations (fst first) - invocations st)
  + (invocations (fst second) - invocations later) <= 1
  /\ (List.length (outbox (fst first)) - List.length (outbox st))
     + (List.length (outbox (fst second)) - List.length (outbox later))
     <= List.length (enabled_providers cfg)
  /\ exists e,
       find_entry fp (cache later) = Some e
       /\ (fst (cache_get (cache_ttl cfg) now1 fp (cache st)) = None ->
           (now2 <= e_stored_at e + cache_ttl cfg)%N)
       /\ ((forall r, In r between ->
                      fingerprint (r_world r) (r_target r) <> inr fp) ->
           e_verdict e = snd first
           /\ (fst (cache_get (cache_ttl cfg) now1 fp (cache st)) = None ->
               e_stored_at e = now1))
       /\ ((now2 <= e_stored_at e + cache_ttl cfg)%N ->
           snd second = e_verdict e
           /\ invocations (fst second) = invocations later
           /\ outbox (fst second) = outbox later).
Proof.
  intros Hroom Hfp1 Hfp2 Hwithin first later second.
  unfold distinct_others in Hroom.
  assert (Hcap : 1 <= cache_capacity cfg) by lia.
  destruct (analyze_fronts cfg w1 now1 t1 st fp Hcap Hfp1)
    as (e1 & Hfront & Hkey1 & Hverdict & Hstored & _).
  fold first in Hfront, Hverdict.
  destruct (run_keeps cfg fp (e_stored_at e1) between (fst first) [])
    as (e & Hheld & Hkey & Hsince & Hsame).
  { rewrite app_nil_r. exact Hroom. }
  { exists e1. repeat split; [exact Hfront | exact Hkey1 | lia]. }
  fold later in Hheld.
  pose proof (held_find fp e _ _ Hkey Hheld) as Hfind.
  assert (Hfresh : fst (cache_get (cache_ttl cfg) now1 fp (cache st)) = None ->
                   (now2 <= e_stored_at e + cache_ttl cfg)%N).
  { intros Hmiss. rewrite (Hstored Hmiss) in Hsince. lia. }
  assert (Hhit : (now2 <= e_stored_at e + cache_ttl cfg)%N ->
                 snd second = e_verdict e
                 /\ invocations (fst second) = invocations later
                 /\ outbox (fst second) = outbox later).
  { intros Hunexpired. unfold second.
    rewrite (analyze_hit cfg w2 now2 t2 later fp (e_verdict e) Hfp2)
      by now apply cache_get_found.
    cbn. auto. }
  destruct (analyze_cost cfg w1 now1 t1 st fp Hfp1) as (Hi1 & Ho1).
  destruct (analyze_cost cfg w2 now2 t2 later fp Hfp2) as (Hi2 & Ho2).
  fold first in Hi1, Ho1. fold second in Hi2, Ho2.
  assert (Htotal :
            (invocations (fst first) - invocations st)
            + (invocations (fst second) - invocations later) <= 1
            /\ (List.length (outbox (fst first)) - List.length (outbox st))
               + (List.length (outbox (fst second)) - List.length (outbox later))
               <= List.length (enabled_providers cfg)).
  { destruct (fst (cache_get (cache_ttl cfg) now1 fp (cache st))) as [v |] eqn:Hget1.
    - (* the first analysis was served from the cache *)
      assert (Hfirst : invocations (fst first) = invocations st
                       /\ outbox (fst first) = outbox st).
      { unfold first.
        rewrite (analyze_hit cfg w1 now1 t1 st fp v Hfp1 Hget1).
        cbn. auto. }
      destruct Hfirst as (Hinv & Hout). rewrite Hinv, Hout. lia.
    - (* the first analysis computed its Verdict and cached it *)
      destruct (Hhit (Hfresh eq_refl)) as (_ & Hinv & Hout).
      rewrite Hinv, Hout. lia. }
  destruct Htotal as (Hi & Ho).
  split; [exact Hi |]. split; [exact Ho |].
  exists e. refine (conj Hfind (conj Hfresh (conj _ Hhit))).
  intros Hother. specialize (Hsame Hother).
  rewrite (held_find fp e1 _ _ Hkey1 Hfront) in Hsame.
  injection Hsame as <-.
  split; [exact Hverdict | exact Hstored].
Qed.

(** *** Verdicts are consistent with their Signals *)

Lemma in_firstn {A} n (l : list A) x : In x (firstn n l) -> In x l.
Proof.
  revert l. induction n as [| n IH]; intros [| y l]; cbn; try tauto.
  intros [-> | H]; [now left | right; auto].
Qed.

Lemma cache_consistent_remove cfg fp c :
  cache_consistent cfg c -> cache_consistent cfg (remove_key fp c).
Proof. apply incl_Forall, incl_filter. Qed.

Lemma cache_consistent_put cfg capacity now fp v c :
  consistent cfg v -> cache_consistent cfg c ->
  cache_consistent cfg (cache_put capacity now fp v c).
Proof.
  intros Hv Hc. unfold cache_put.
  apply (incl_Forall (l1 := mkEntry fp v now :: remove_key fp c)).
  - intros e. apply in_firstn.
  - constructor; [exact Hv | now apply cache_consistent_remove].
Qed.

Lemma cache_consistent_get cfg ttl now fp c :
  cache_consistent cfg c ->
  cache_consistent cfg (snd (cache_get ttl now fp c))
  /\ forall v, fst (cache_get ttl now fp c) = Some v -> consistent cfg v.
Proof.
  intros Hc. unfold cache_get.
  destruct (find_entry fp c) as [e |] eqn:Hfind; [| split; [exact Hc | discriminate]].
  assert (He : consistent cfg (e_verdict e)).
  { unfold cache_consistent in Hc. rewrite Forall_forall in Hc.
    apply Hc. now apply find_entry_in with fp. }
  destruct (expired ttl now e); cbn; split; try exact Hc; try discriminate.
  - constructor; [exact He | now apply cache_consistent_remove].
  - now intros v [= <-].
Qed.

(** The Verdict of an analysis whose Fingerprint step succeeds has the
    level of step 5, whether it was computed or came from a cache filled by
    earlier analyses. *)
Lemma analyze_consistent cfg w now t st :
  cache_consistent cfg (cache st) ->
  cache_consistent cfg (cache (fst (analyze cfg w now t st)))
  /\ forall fp, fingerprint w t = inr fp ->
                consistent cfg (snd (analyze cfg w now t st)).
Proof.
  intros Hc.
  destruct (fingerprint w t) as [[path] | fp] eqn:Hfp.
  - rewrite (analyze_unreadable _ _ _ _ _ _ Hfp).
    split; [exact Hc | discriminate].
  - destruct (cache_consistent_get cfg (cache_ttl cfg) now fp (cache st) Hc)
      as (Hc' & Hv).
    destruct (fst (cache_get (cache_ttl cfg) now fp (cache st))) as [v |] eqn:Hget.
    + rewrite (analyze_hit _ _ _ _ _ _ _ Hfp Hget). cbn.
      split; [exact Hc' | intros _ _; now apply Hv].
    + destruct (analyze_miss _ _ _ _ _ _ Hfp Hget)
        as (signals & contributed & failed & ->). cbn.
      split; [| intros _ _; reflexivity].
      now apply cache_consistent_put.
Qed.

Lemma reachable_consistent cfg st :
  reachable digest normalize_url score cfg st -> cache_consistent cfg (cache st).
Proof.
  induction 1 as [| st r _ IH]; [constructor |].
  now apply analyze_consistent.
Qed.

End Analysis.

Lemma two_analyses_one_lookup_witness :
  distinct_others first_byte keep_url (FileFp [x41] 1)
    [mkAnalysis three_files 20 file_b; mkAnalysis three_files 30 file_b;
     mkAnalysis three_files 40 file_b]
  < cache_capacity sample_config
  /\ (100 <= 10 + cache_ttl sample_config)%N
  /\ invocations
       (fst (analyze first_byte keep_url extension_rule sample_config
               three_files 10 file_a initial)) = 1
  /\ invocations
       (fst (analyze first_byte keep_url extension_rule sample_config
               three_files 100 file_a
               (fst (run first_byte keep_url extension_rule sample_config
                       [mkAnalysis three_files 20 file_b;
                        mkAnalysis three_files 30 file_b;
                        mkAnalysis three_files 40 file_b]
                       (fst (analyze first_byte keep_url extension_rule
                               sample_config three_files 10 file_a initial))))))
     = 2.
Proof.
  assert (Hroom : distinct_others first_byte keep_url (FileFp [x41] 1)
                    [mkAnalysis three_files 20 file_b;
                     mkAnalysis three_files 30 file_b;
                     mkAnalysis three_files 40 file_b]
                  < cache_capacity sample_config) by (vm_compute; lia).
  assert (Hwithin : (100 <= 10 + cache_ttl sample_config)%N) by (cbn; lia).
  split; [exact Hroom |]. split; [exact Hwithin |]. split; [reflexivity |].
  pose proof (two_analyses_one_lookup first_byte keep_url extension_rule
                sample_config initial three_files 10 file_a
                [mkAnalysis three_files 20 file_b;
                 mkAnalysis three_files 30 file_b;
                 mkAnalysis three_files 40 file_b] three_files 100 file_a
                (FileFp [x41] 1) Hroom eq_refl eq_refl Hwithin) as H.
  cbv zeta in H. destruct H as (_ & _ & e & _ & Hfresh & _ & Hhit).
  destruct (Hhit (Hfresh eq_refl)) as (_ & Hinv & _).
  etransitivity; [exact Hinv | reflexivity].
Defined.

(** C4 fails as stated, in three ways, each with the sample configuration
    (a TTL of 3600, a cache of two entries) or its variant without cache.
    Eviction: with two other downloads analysed between them, two analyses
    of the same file three time units apart both invoke the Reputation
    Client and both send the digest, and the second Verdict is a new one.
    Expiry: the Verdict cached at time 0 serves an analysis at 3600 and is
    expired for the next one at 3601, which invokes the Reputation Client.
    No room: with a cache of capacity 0 every analysis invokes it. *)
Lemma second_analysis_looks_up_again :
  let analyze := analyze first_byte keep_url extension_rule in
  let run := run first_byte keep_url extension_rule in
  let sent st := List.length (filter (discloses [x41]) (outbox st)) in
  (let first := analyze sample_config three_files 0%N file_a initial in
   let later := fst (run sample_config
                       [mkAnalysis three_files 1%N file_b;
                        mkAnalysis three_files 2%N file_c] (fst first)) in
   let second := analyze sample_config three_files 3%N file_a later in
   (3 <= 0 + cache_ttl sample_config)%N
   /\ invocations (fst first) - invocations initial = 1
   /\ invocations (fst second) - invocations later = 1
   /\ sent (fst second) = 2
   /\ snd second <> snd first)
  /\ (let first := analyze sample_config three_files 3600%N file_a
                     (fst (analyze sample_config three_files 0%N file_a initial)) in
      let second := analyze sample_config three_files 3601%N file_a (fst first) in
      (3601 <= 3600 + cache_ttl sample_config)%N
      /\ v_timestamp (snd first) = 0%N
      /\ invocations (fst second) = S (invocations (fst first))
      /\ snd second <> snd first)
  /\ (let first := analyze no_cache_config three_files 0%N file_a initial in
      let second := analyze no_cache_config three_files 1%N file_a (fst first) in
      (1 <= 0 + cache_ttl no_cache_config)%N
      /\ invocations (fst second) = 2
      /\ sent (fst second) = 2).
Proof.
  vm_compute.
  repeat split; try discriminate; try (intros H; discriminate H).
Qed.

(** *** The level of step 5 *)

Lemma compute_level_unknown cfg signals :
  compute_level cfg signals = Unknown <-> signals = [].
Proof.
  unfold compute_level. destruct signals as [| s rest]; [now split |].
  destruct (existsb _ _); [split; discriminate |].
  destruct (existsb _ _); split; discriminate.
Qed.

(** With remote data as without, adding a Signal never lowers the level. *)
Lemma risk_level_grows cfg before after s remote_data :
  level_le (risk_level cfg (before ++ after) remote_data)
           (risk_level cfg (before ++ s :: after) remote_data).
Proof.
  pose proof (compute_level_grows cfg before after s) as Hgrow.
  unfold risk_level.
  destruct (before ++ s :: after)%list as [| x l] eqn:Emore;
    [now destruct before |].
  destruct (before ++ after)%list as [| y l'] eqn:Eless; [| exact Hgrow].
  unfold level_le in *.
  destruct (compute_level cfg (x :: l)) eqn:E; destruct remote_data; cbn; try lia.
  all: apply compute_level_unknown in E; discriminate E.
Qed.






(** *** What leaves the machine *)

Lemma file_fingerprint_inv digest normalize_url w t fp :
  kind t = File ->
  fingerprint digest normalize_url w t = inr fp ->
  exists content,
    read_file w (raw t) = Some content
    /\ fp = FileFp (digest content) (N.of_nat (List.length content)).
Proof.
  unfold fingerprint. intros ->.
  destruct (read_file w (raw t)) as [content |]; [| discriminate].
  intros [= <-]. now exists content.
Qed.

(** The requests of one analysis: none on a read failure or a cache hit,
    one per enabled provider otherwise when remote reputation is wanted. *)
Lemma analyze_outbox digest normalize_url score cfg w now t st :
  outbox (fst (analyze digest normalize_url score cfg w now t st))
  = (outbox st
     ++ match fingerprint digest normalize_url w t with
        | inl _ => []
        | inr fp =>
            match fst (cache_get (cache_ttl cfg) now fp (cache st)) with
            | Some _ => []
            | None =>
                if remote_wanted cfg
                then map (request_for (payload_of normalize_url t fp))
                         (enabled_providers cfg)
                else []
            end
        end)%list.
Proof.
  destruct (fingerprint digest normalize_url w t) as [[path] | fp] eqn:Hfp.
  - rewrite (analyze_unreadable _ _ _ _ _ _ _ _ _ Hfp). cbn. now rewrite app_nil_r.
  - destruct (fst (cache_get (cache_ttl cfg) now fp (cache st))) as [v |] eqn:Hget.
    + rewrite (analyze_hit _ _ _ _ _ _ _ _ _ _ Hfp Hget). cbn. now rewrite app_nil_r.
    + destruct (analyze_miss digest normalize_url score cfg w now t st fp Hfp Hget)
        as (signals & contributed & failed & ->). reflexivity.
Qed.

(** C5.  Every request an analysis sends goes to an enabled provider, to
    that provider's endpoint and with that provider's credential, and its
    payload is the digest of the content for a file and the normalized URL
    string for a URL.  What is sent for a file depends on the Fingerprint
    alone: the analysis of any file with the same Fingerprint, whatever its
    path, name, declared type and bytes, in any world and with any scorer,
    sends the same requests. *)
Theorem outbound_requests_disclose_fingerprint_only
  digest normalize_url score cfg w now t st :
  exists sent,
    outbox (fst (analyze digest normalize_url score cfg w now t st))
    = (outbox st ++ sent)%list
    /\ (forall rq,
          In rq sent ->
          exists p,
            In p (providers cfg) /\ p_enabled p = true
            /\ out_endpoint rq = p_endpoint p
            /\ out_auth rq = p_credential p
            /\ match kind t with
               | File =>
                   exists content,
                     read_file w (raw t) = Some content
                     /\ out_payload rq = HashDigest (digest content)
               | Url => out_payload rq = NormalizedUrl (normalize_url (raw t))
               end)
    /\ (forall score' w' t',
          kind t = File -> kind t' = File ->
          fingerprint digest normalize_url w' t'
          = fingerprint digest normalize_url w t ->
          outbox (fst (analyze digest normalize_url score' cfg w' now t' st))
          = outbox (fst (analyze digest normalize_url score cfg w now t st))).
Proof.
  eexists. split; [apply analyze_outbox |]. split.
  - intros rq Hin.
    destruct (fingerprint digest normalize_url w t) as [e | fp] eqn:Hfp; [destruct Hin |].
    destruct (fst (cache_get (cache_ttl cfg) now fp (cache st))); [destruct Hin |].
    destruct (remote_wanted cfg); [| destruct Hin].
    apply in_map_iff in Hin. destruct Hin as (p & <- & Hp).
    unfold enabled_providers in Hp. apply filter_In in Hp. destruct Hp as (Hp & Hen).
    exists p. repeat split; try assumption.
    destruct (kind t) eqn:Hkind.
    + destruct (file_fingerprint_inv _ _ _ _ _ Hkind Hfp) as (content & Hread & ->).
      now exists content.
    + unfold fingerprint in Hfp. rewrite Hkind in Hfp. injection Hfp as <-.
      reflexivity.
  - intros score' w' t' Hkind Hkind' Hsame.
    rewrite !analyze_outbox, Hsame. f_equal.
    destruct (fingerprint digest normalize_url w t) as [e | fp] eqn:Hfp; [reflexivity |].
    destruct (file_fingerprint_inv _ _ _ _ _ Hkind Hfp) as (content & _ & ->).
    reflexivity.
Qed.

Lemma outbound_requests_disclose_fingerprint_only_witness :
  outbox (fst (analyze first_byte keep_url (fun _ _ => []) sample_config
                 other_world 10 other_file initial))
  = [mkOutbound "https://www.virustotal.com" "vt-key" (HashDigest [x4d])].
Proof.
  destruct (outbound_requests_disclose_fingerprint_only first_byte keep_url
              extension_rule sample_config sample_world 10 sample_file initial)
    as (sent & _ & _ & Hsame).
  rewrite (Hsame (fun _ _ => []) other_world other_file eq_refl eq_refl eq_refl).
  reflexivity.
Defined.


(** *** Fingerprints *)



End EngineFacts.

(** ** Directory Watcher *)

Module WatcherFacts.
Import Watcher.

(** No transition fails. *)
Lemma step_ok path s i : exists s' out, step path s i = inr (s', out).
Proof.
  destruct s as [| since | since [previous |] |], i as [t | t [seen |] | t];
    cbn; try (do 2 eexists; reflexivity).
  destruct (stat_eqb previous seen); do 2 eexists; reflexivity.
Qed.

(** A deletion, or a poll that finds the file gone, returns the file to
    Idle, whatever its state, and emits nothing. *)
Lemma step_gone path s i : gone i = true -> step path s i = inr (Idle, []).
Proof.
  destruct i as [t | t [seen |] | t]; try discriminate; intros _;
    destruct s as [| since | since [previous |] |]; reflexivity.
Qed.

Lemma file_run_app path a b :
  forall s s1 out1,
    file_run path s a = inr (s1, out1) ->
    file_run path s (a ++ b)
    = match file_run path s1 b with
      | inl e => inl e
      | inr (s2, out2) => inr (s2, (out1 ++ out2)%list)
      end.
Proof.
  induction a as [| i a IH]; intros s s1 out1; cbn [file_run app].
  - intros [= <- <-]. destruct (file_run path s b) as [e | [s2 out2]]; reflexivity.
  - destruct (step path s i) as [e | [s' o']]; [discriminate |].
    destruct (file_run path s' a) as [e | [s'' o'']] eqn:Ha; [discriminate |].
    intros [= <- <-]. rewrite (IH _ _ _ Ha).
    destruct (file_run path s'' b) as [e | [s2 out2]]; [reflexivity |].
    now rewrite app_assoc.
Qed.

(** Ready is terminal while the file is there. *)
Lemma ready_is_terminal path body :
  forallb present body = true -> file_run path Ready body = inr (Ready, []).
Proof.
  induction body as [| i body IH]; [reflexivity |].
  cbn [forallb]. intros [Hi Hbody]%andb_prop.
  destruct i as [t | t [seen |] | t]; try discriminate Hi;
    cbn [file_run step]; now rewrite (IH Hbody).
Qed.

Lemma stabilizes_two t a t' b rest :
  stabilizes (Poll t (Some a) :: Poll t' (Some b) :: rest)
  = stat_eqb a b || stabilizes (Poll t' (Some b) :: rest).
Proof. reflexivity. Qed.

(** A file being debounced becomes Ready, and its WatchEvent is emitted
    once, exactly when two consecutive polls of its window agree. *)
Lemma debounce_run path since :
  forall body s,
    debouncing since s ->
    forallb present body = true ->
    (stabilizes (window s body) = true ->
     file_run path s body = inr (Ready, [mkWatchEvent path since true]))
    /\ (stabilizes (window s body) = false ->
        exists s', file_run path s body = inr (s', [])
                   /\ debouncing since s').
Proof.
  induction body as [| i body IH]; intros s Hs Hpresent.
  - split.
    + destruct Hs as [-> | ([previous |] & ->)]; discriminate.
    + intros _. now exists s.
  - cbn [forallb] in Hpresent. apply andb_prop in Hpresent.
    destruct Hpresent as (Hi & Hbody).
    destruct i as [t | t [seen |] | t]; try discriminate Hi.
    + (* a notification restarts the window *)
      assert (Hnext : debouncing since (Stabilizing since None))
        by (right; now exists None).
      destruct (IH _ Hnext Hbody) as (Hyes & Hno).
      destruct Hs as [-> | ([previous |] & ->)]; cbn [window stabilizes file_run step];
        cbn [window] in Hyes, Hno; split; intros H.
      all: try (rewrite (Hyes H); reflexivity).
      all: destruct (Hno H) as (s' & -> & Hs'); exists s'; now split.
    + (* a poll that finds the file *)
      assert (Hnext : debouncing since (Stabilizing since (Some seen)))
        by (right; now exists (Some seen)).
      destruct (IH _ Hnext Hbody) as (Hyes & Hno). cbn [window] in Hyes, Hno.
      assert (Hsame : stabilizes (Poll t (Some seen) :: body)
                      = stabilizes (Poll 0 (Some seen) :: body)) by reflexivity.
      destruct Hs as [-> | ([previous |] & ->)]; cbn [window file_run step].
      * rewrite Hsame. split; intros H.
        -- rewrite (Hyes H). reflexivity.
        -- destruct (Hno H) as (s' & -> & Hs'). exists s'. now split.
      * rewrite stabilizes_two. destruct (stat_eqb previous seen) eqn:E.
        -- rewrite (ready_is_terminal _ _ Hbody). cbn. split; [reflexivity | discriminate].
        -- cbn [orb]. rewrite Hsame. split; intros H.
           ++ rewrite (Hyes H). reflexivity.
           ++ destruct (Hno H) as (s' & -> & Hs'). exists s'. now split.
      * rewrite Hsame. split; intros H.
        -- rewrite (Hyes H). reflexivity.
        -- destruct (Hno H) as (s' & -> & Hs'). exists s'. now split.
Qed.

(** What the watcher has emitted by the time an episode stands at [body] is
    what is due for it. *)
Lemma episode_emitted path t body s emitted :
  forallb present body = true ->
  file_run path (Detected t) body = inr (s, emitted) ->
  emitted = due path (mkEpisode t body).
Proof.
  intros Hpresent Hrun.
  destruct (debounce_run path t body (Detected t) (or_introl eq_refl) Hpresent)
    as (Hyes & Hno).
  cbn [window] in Hyes, Hno. unfold due. cbn [ep_body ep_detected].
  destruct (stabilizes body).
  - rewrite (Hyes eq_refl) in Hrun. now injection Hrun as _ <-.
  - destruct (Hno eq_refl) as (s' & Hrun' & _).
    rewrite Hrun' in Hrun. now injection Hrun as _ <-.
Qed.

(** The state machine of a file, from any point of any sequence of inputs
    on: it does not fail, and what it has emitted and what it goes on to
    emit is what is due for the episodes of the file. *)
Lemma file_run_episodes path :
  forall inputs current s emitted,
    match current with
    | None => s = Idle /\ emitted = []
    | Some ep =>
        forallb present (ep_body ep) = true
        /\ file_run path (Detected (ep_detected ep)) (ep_body ep)
           = inr (s, emitted)
    end ->
    exists s' out,
      file_run path s inputs = inr (s', out)
      /\ (emitted ++ out)%list
         = flat_map (due path) (episodes current inputs).
Proof.
  induction inputs as [| i rest IH]; intros current s emitted Hcurrent.
  - exists s, []. split; [reflexivity |]. rewrite app_nil_r.
    destruct current as [[t body] |]; cbn [episodes flat_map].
    + destruct Hcurrent as (Hpresent & Hrun). cbn [ep_body ep_detected] in *.
      rewrite app_nil_r. exact (episode_emitted _ _ _ _ _ Hpresent Hrun).
    + now destruct Hcurrent as (_ & ->).
  - destruct current as [[t body] |]; cbn [episodes].
    + destruct Hcurrent as (Hpresent & Hrun). cbn [ep_body ep_detected] in *.
      destruct (present i) eqn:Hi.
      * (* the episode goes on *)
        destruct (step_ok path s i) as (s1 & out1 & Hstep).
        destruct (IH (Some (mkEpisode t (body ++ [i])%list)) s1
                     (emitted ++ out1)%list)
          as (s' & out & Hrest & Hdue).
        { cbn [ep_body ep_detected]. split.
          - rewrite forallb_app, Hpresent. cbn. now rewrite Hi.
          - rewrite (file_run_app _ _ _ _ _ _ Hrun). cbn [file_run].
            rewrite Hstep. now rewrite app_nil_r. }
        exists s', (out1 ++ out)%list. split.
        -- cbn [file_run]. rewrite Hstep, Hrest. reflexivity.
        -- rewrite app_assoc. exact Hdue.
      * (* the file is gone: the episode is over *)
        assert (Hgone : gone i = true) by (unfold gone; now rewrite Hi).
        destruct (IH None Idle []) as (s' & out & Hrest & Hdue); [now split |].
        exists s', out. split.
        -- cbn [file_run]. rewrite (step_gone _ _ _ Hgone), Hrest. reflexivity.
        -- cbn [flat_map]. cbn [app] in Hdue. rewrite <- Hdue.
           now rewrite (episode_emitted _ _ _ _ _ Hpresent Hrun).
    + destruct Hcurrent as (-> & ->).
      destruct i as [t | t seen | t].
      * (* a file the watcher does not hold is notified: an episode begins *)
        destruct (IH (Some (mkEpisode t [])) (Detected t) [])
          as (s' & out & Hrest & Hdue); [now split |].
        exists s', out. split; [| exact Hdue].
        cbn [file_run step]. now rewrite Hrest.
      * destruct (IH None Idle []) as (s' & out & Hrest & Hdue); [now split |].
        exists s', out. split; [| exact Hdue].
        cbn [file_run]. replace (step path Idle (Poll t seen)) with
          (inr (Idle, []) : WatcherError + FileState * list WatchEvent)
          by now destruct seen.
        now rewrite Hrest.
      * destruct (IH None Idle []) as (s' & out & Hrest & Hdue); [now split |].
        exists s', out. split; [| exact Hdue].
        cbn [file_run step]. now rewrite Hrest.
Qed.

(** A WatchEvent names the file whose transition emitted it. *)
Lemma step_path path s i s' out e :
  step path s i = inr (s', out) -> In e out -> we_path e = path.
Proof.
  destruct s as [| since | since [previous |] |], i as [t | t [seen |] | t];
    cbn; try (intros [= <- <-]; intros []).
  destruct (stat_eqb previous seen); intros [= <- <-]; [| intros []].
  intros [<- | []]. reflexivity.
Qed.

Lemma events_for_own path out :
  (forall e, In e out -> we_path e = path) -> events_for path out = out.
Proof.
  intros H. unfold events_for. induction out as [| e out IH]; [reflexivity |].
  cbn. rewrite (H e (or_introl eq_refl)), String.eqb_refl.
  f_equal. apply IH. intros e' He'. apply H. now right.
Qed.

Lemma events_for_other path q out :
  q <> path -> (forall e, In e out -> we_path e = q) -> events_for path out = [].
Proof.
  intros Hne H. unfold events_for. induction out as [| e out IH]; [reflexivity |].
  cbn. rewrite (H e (or_introl eq_refl)).
  destruct (String.eqb_spec q path) as [Heq | _]; [contradiction |].
  apply IH. intros e' He'. apply H. now right.
Qed.

(** The watcher of a directory does not fail and treats each file on its
    own: what it emits about a file and the state it keeps for it are those
    of the file's state machine run on the file's inputs. *)
Lemma dir_run_project path :
  forall evs d s out,
    file_run path (d path) (inputs_for path evs) = inr (s, out) ->
    exists d' all,
      dir_run d evs = inr (d', all)
      /\ events_for path all = out
      /\ d' path = s.
Proof.
  induction evs as [| [q i] evs IH]; intros d s out.
  - cbn. intros [= <- <-]. now exists d, [].
  - cbn [dir_run dir_step inputs_for].
    destruct (step_ok q (d q) i) as (s1 & out1 & Hstep). rewrite Hstep.
    pose proof (fun e => step_path q (d q) i s1 out1 e Hstep) as Hown.
    destruct (String.eqb_spec q path) as [-> | Hne].
    + cbn [file_run]. rewrite Hstep.
      destruct (file_run path s1 (inputs_for path evs)) as [e | [s2 out2]] eqn:Hrest;
        [discriminate |].
      intros [= <- <-].
      destruct (IH (set_state d path s1) s2 out2) as (d' & all & -> & Hall & Hd').
      { unfold set_state. now rewrite String.eqb_refl. }
      exists d', (out1 ++ all)%list. split; [reflexivity |]. split; [| exact Hd'].
      unfold events_for in *. rewrite filter_app. fold (events_for path out1).
      now rewrite (events_for_own _ _ Hown), Hall.
    + intros Hrun.
      destruct (IH (set_state d q s1) s out) as (d' & all & -> & Hall & Hd').
      { unfold set_state.
        destruct (String.eqb_spec path q) as [Heq | _]; [now subst | exact Hrun]. }
      exists d', (out1 ++ all)%list. split; [reflexivity |]. split; [| exact Hd'].
      unfold events_for in *. rewrite filter_app. fold (events_for path out1).
      now rewrite (events_for_other _ _ _ Hne Hown).
Qed.

(** C6.  Whatever happens in a watched directory, in any order and to any
    number of files, the watcher does not fail, and about a file it held
    Idle at the start it emits one WatchEvent for each file-creation
    episode in which the file stabilizes, detected when that episode began,
    and none for an episode that ends, by a deletion or by a poll that
    finds the file gone, before the file stabilizes; in the order of the
    episodes, and nothing else.  An episode begins with the notification of
    a file that the watcher does not hold and lasts until the file is gone;
    the file stabilizes in it when two polls in a row, with no notification
    between them, see the same size and modification time, however often
    it was modified before. *)
Theorem watch_event_exactly_once d evs path :
  d path = Idle ->
  exists d' out,
    dir_run d evs = inr (d', out)
    /\ events_for path out
       = flat_map (due path) (episodes None (inputs_for path evs))
    /\ List.length (events_for path out)
       <= List.length (episodes None (inputs_for path evs)).
Proof.
  intros Hidle.
  destruct (file_run_episodes path (inputs_for path evs) None Idle [])
    as (s & out & Hrun & Hdue); [now split |].
  cbn [app] in Hdue.
  destruct (dir_run_project path evs d s out) as (d' & all & Hall & Hevents & _);
    [now rewrite Hidle |].
  exists d', all. split; [exact Hall |].
  rewrite Hevents, Hdue. split; [reflexivity |].
  generalize (episodes None (inputs_for path evs)). intros eps.
  induction eps as [| ep eps IH]; [reflexivity |].
  cbn [flat_map]. rewrite length_app. unfold due at 1.
  destruct (stabilizes (ep_body ep)); cbn [List.length]; lia.
Qed.

Lemma watch_event_exactly_once_witness :
  empty_directory "setup.exe" = Idle
  /\ empty_directory "notes.txt" = Idle
  /\ exists d' out,
       dir_run empty_directory download_trace = inr (d', out)
       /\ events_for "setup.exe" out
          = [mkWatchEvent "setup.exe" 100 true;
             mkWatchEvent "setup.exe" 300 true]
       /\ events_for "notes.txt" out = [].
Proof.
  split; [reflexivity |]. split; [reflexivity |].
  destruct (watch_event_exactly_once empty_directory download_trace
              "setup.exe" eq_refl) as (d1 & out1 & Hrun1 & Hsetup & _).
  destruct (watch_event_exactly_once empty_directory download_trace
              "notes.txt" eq_refl) as (d2 & out2 & Hrun2 & Hnotes & _).
  exists d1, out1. split; [exact Hrun1 |]. split; [exact Hsetup |].
  rewrite Hrun1 in Hrun2. injection Hrun2 as _ <-. exact Hnotes.
Defined.

End WatcherFacts.

(** ** [main.js] and [preload.js]: requests, results, logging *)

Module ApiFacts.
Import Js Main Preload MainFacts.
Local Open Scope js_scope.

(** [makeApiCall] asks [fetch] for one request and nothing else. *)
Lemma makeApiCall_local fetch fetch' endpoint options :
  fetch (fetch_init endpoint options) = fetch' (fetch_init endpoint options) ->
  makeApiCall fetch endpoint options = makeApiCall fetch' endpoint options.
Proof. intros H. unfold makeApiCall. now rewrite H. Qed.

Lemma makeApiCall_quiet fetch endpoint options v :
  completion (makeApiCall fetch endpoint options) = Returned v ->
  makeApiCall fetch endpoint options = ([], Returned v).
Proof.
  intros H. apply makeApiCall_returns in H.
  destruct H as (r & Hf & Hok & Hj). now apply makeApiCall_ok with r.
Qed.

(** X1.  When the Python API answers the request of a handler (its
    endpoint under http://127.0.0.1:5001, its method, the JSON content
    type, the stringified argument as body) with an ok response, the
    handler returns the parsed body of that response unchanged. *)
Theorem handler_returns_server_body fetch ch arg rq r body :
  sent_request ch arg = Some rq ->
  fetch rq = Returned r ->
  ok r = true ->
  json r = Returned body ->
  completion (invoke fetch ch arg) = Returned body.
Proof.
  intros Hrq Hf Hok Hj.
  destruct ch, arg as [v | why]; cbn in Hrq; try discriminate Hrq;
    injection Hrq as <-; unfold_handler;
    match goal with
    | |- context [makeApiCall fetch ?ep ?opts] =>
        rewrite (makeApiCall_ok fetch ep opts r body Hf Hok Hj)
    end; reflexivity.
Qed.

Lemma handler_returns_server_body_witness :
  completion (invoke (echo_server (JObj [("success", JBool true)]))
                UpdateMonitoringSettings (Plain (JObj [("interval", JNum 5)])))
  = Returned (JObj [("success", JBool true)]).
Proof.
  exact (handler_returns_server_body (echo_server (JObj [("success", JBool true)]))
           UpdateMonitoringSettings (Plain (JObj [("interval", JNum 5)]))
           _ (mkResponse true 200 (Returned (JObj [("success", JBool true)])))
           (JObj [("success", JBool true)]) eq_refl eq_refl eq_refl eq_refl).
Defined.

(** X2.  A handler consults the server through one request at most: what
    it returns and what it logs are the same against any two servers that
    answer that request alike, whatever they answer to all others.  When
    the settings or the chat message cannot be stringified it sends no
    request at all and returns [{success: false, message}] with the message
    of the [TypeError]. *)
Theorem handler_consults_one_request fetch fetch' ch arg :
  (forall rq, sent_request ch arg = Some rq -> fetch rq = fetch' rq) ->
  invoke fetch ch arg = invoke fetch' ch arg
  /\ (sent_request ch arg = None ->
      exists why,
        arg = NotSerializable why
        /\ completion (invoke fetch ch arg)
           = Returned (JObj [("success", JBool false); ("message", JStr why)])).
Proof.
  intros H. split.
  - destruct ch, arg as [v | why]; cbn in H; unfold_handler; try reflexivity;
      match goal with
      | |- context [makeApiCall fetch ?ep ?opts] =>
          rewrite (makeApiCall_local fetch fetch' ep opts (H _ eq_refl))
      end; reflexivity.
  - destruct ch, arg as [v | why]; cbn; try discriminate;
      intros _; now exists why.
Qed.

Lemma handler_consults_one_request_witness :
  invoke status_only GetMonitoringStatus (Plain JNull)
  = invoke (echo_server (JObj [("isRunning", JBool true)]))
      GetMonitoringStatus (Plain JNull).
Proof.
  apply (handler_consults_one_request status_only
           (echo_server (JObj [("isRunning", JBool true)]))
           GetMonitoringStatus (Plain JNull)).
  intros rq [= <-]. reflexivity.
Defined.

(** X3.  No failure is swallowed silently: whenever the API call of a
    handler fails with [e], the handler calls [console.error] with its own
    label and [e] before it returns its fallback; and when the API call
    succeeds, nothing is written to [console.error]. *)
Theorem failures_are_logged fetch ch arg :
  (forall e,
      completion (api_call fetch ch arg) = Threw e ->
      In (ConsoleError (failure_label ch) (Some e))
         (output (invoke fetch ch arg)))
  /\ (forall v,
         completion (api_call fetch ch arg) = Returned v ->
         existsb is_console_error (output (invoke fetch ch arg)) = false).
Proof.
  split.
  - intros e.
    destruct ch; unfold_handler;
      try (destruct arg as [v | why]; cbn -[makeApiCall]);
      try (intros H; injection H as <-; cbn; auto; fail);
      match goal with
      | |- context [makeApiCall fetch ?ep ?opts] =>
          destruct (makeApiCall fetch ep opts) as [log [v' | e']];
            cbn; intros H; try discriminate H; injection H as <-;
            apply in_or_app; right; now left
      end.
  - intros v.
    destruct ch; unfold_handler;
      try (destruct arg as [x | why]; cbn -[makeApiCall]);
      try discriminate;
      match goal with
      | |- context [makeApiCall fetch ?ep ?opts] =>
          let H := fresh "H" in
          let E := fresh "E" in
          destruct (makeApiCall fetch ep opts) as [log [v' | e']] eqn:E;
            cbn; intros H; try discriminate H;
            assert (Hq : makeApiCall fetch ep opts = ([], Returned v'))
              by (apply makeApiCall_quiet; now rewrite E);
            rewrite E in Hq; injection Hq as ->; reflexivity
      end.
Qed.

Lemma failures_are_logged_witness :
  In (ConsoleError "Failed to get alerts:"
        (Some (mkError "FetchError" "connect ECONNREFUSED 127.0.0.1:5001")))
     (output (invoke unreachable_server GetAlerts (Plain JNull))).
Proof.
  exact (proj1 (failures_are_logged unreachable_server GetAlerts (Plain JNull))
           (mkError "FetchError" "connect ECONNREFUSED 127.0.0.1:5001") eq_refl).
Defined.

Lemma handler_for_name ch : handler_for (channel_name ch) = Some ch.
Proof. destruct ch; reflexivity. Qed.

Lemma handler_for_some name ch :
  handler_for name = Some ch -> channel_name ch = name.
Proof.
  unfold handler_for. intros H. apply find_some in H.
  destruct H as (_ & H). symmetry. now apply String.eqb_eq.
Qed.

(** X4.  [preload.js] and [main.js] agree on the channels: every method of
    [window.electronAPI] invokes a channel that has a handler, every handler
    is reached by exactly one method, and a name is refused with
    "No handler registered" exactly when no handler carries it.  So no call
    through [window.electronAPI] is ever rejected. *)
Theorem electronAPI_reaches_handlers :
  (forall m, exists ch,
      handler_for (invoked_channel m) = Some ch
      /\ channel_name ch = invoked_channel m)
  /\ (forall ch, exists m,
         invoked_channel m = channel_name ch
         /\ forall m', invoked_channel m' = channel_name ch -> m' = m)
  /\ (forall fetch name arg,
         completion (ipcRenderer_invoke fetch name arg) = Threw (no_handler name)
         <-> forall ch, channel_name ch <> name)
  /\ (forall fetch m arg,
         exists v, completion (electronAPI fetch m arg) = Returned v).
Proof.
  split; [| split; [| split]].
  - intros m. destruct m; eexists; split; reflexivity.
  - intros ch.
    destruct ch;
      [exists startMonitoring | exists stopMonitoring
       | exists getMonitoringStatus | exists updateMonitoringSettings
       | exists getAlerts | exists startAI | exists stopAI
       | exists getAIStatus | exists chatWithAI];
      (split; [reflexivity |]); intros m'; destruct m'; cbn;
      intros H; try reflexivity; discriminate H.
  - intros fetch name arg. unfold ipcRenderer_invoke.
    destruct (handler_for name) as [ch |] eqn:E.
    + split.
      * intros H. destruct (invoke_never_throws fetch ch arg) as (v & Hv).
        congruence.
      * intros H. exfalso. apply (H ch). now apply handler_for_some.
    + split; [| reflexivity].
      intros _ ch Hname. rewrite <- Hname, handler_for_name in E. discriminate E.
  - intros fetch m arg. unfold electronAPI, ipcRenderer_invoke.
    destruct m; cbn -[invoke]; apply invoke_never_throws.
Qed.

Lemma electronAPI_reaches_handlers_witness :
  completion (ipcRenderer_invoke unreachable_server "get-health" (Plain JNull))
  = Threw (no_handler "get-health").
Proof.
  destruct electronAPI_reaches_handlers as (_ & _ & Hrefused & _).
  apply (Hrefused unreachable_server "get-health" (Plain JNull)).
  intros ch H. destruct ch; discriminate H.
Defined.

End ApiFacts.

(** ** The object literal given to [fetch] *)

Module JsObjectFacts.
Import Js Main JsObject.

Lemma own_app k (a b : Object) :
  own k (a ++ b)%list
  = match own k a with Some v => Some v | None => own k b end.
Proof.
  induction a as [| [k' v] a IH]; cbn; [reflexivity |].
  destruct (String.eqb k k'); [reflexivity | exact IH].
Qed.

(** X5.  In the object [makeApiCall] hands to [fetch], a [headers]
    property of [options] replaces the headers altogether: the request has
    the ['Content-Type': 'application/json'] header only when the caller
    passes no [headers] property, and otherwise exactly the caller's
    headers (the inner spread of [options.headers] is overwritten).  Every
    other property is the caller's. *)
Theorem headers_option_replaces_default options :
  member "headers" (fetch_init_object options)
  = match own "headers" options with
    | Some given => given
    | None => VObject default_headers
    end
  /\ (forall k, k <> "headers" ->
                member k (fetch_init_object options) = member k options).
Proof.
  unfold fetch_init_object, member, spread, with_property. cbn [spreadable].
  split.
  - rewrite own_app. destruct (own "headers" options) as [given |]; reflexivity.
  - intros k Hk. rewrite own_app.
    destruct (own k options) as [v |]; [reflexivity |].
    cbn. destruct (String.eqb_spec k "headers"); [contradiction | reflexivity].
Qed.

Lemma headers_option_replaces_default_witness :
  member "headers" (fetch_init_object with_authorization)
  = VObject [("Authorization", VString "Bearer t")]
  /\ member "method" (fetch_init_object with_authorization) = VString "POST".
Proof.
  destruct (headers_option_replaces_default with_authorization) as (Hh & Hother).
  split; [exact Hh |].
  rewrite Hother; [reflexivity | discriminate].
Defined.

Lemma own_optional k k' v (o : Object) :
  k <> k' -> own k (optional k' v o) = own k o.
Proof.
  intros Hk. destruct v as [x |]; [| reflexivity].
  cbn. destruct (String.eqb_spec k k'); [contradiction | reflexivity].
Qed.

(** X6.  The request record used for [makeApiCall] reads the same as the
    object literal of the source: for every [options] a caller can write
    with the properties [method], [body] and [headers], the [headers],
    [method] and [body] of [fetch_init] are the members of that object. *)
Theorem fetch_init_reads_the_literal text_of endpoint o :
  let init := fetch_init_object (options_object text_of o) in
  member "headers" init = VObject (strings (req_headers (fetch_init endpoint o)))
  /\ member "method" init = string_or_undefined (req_method (fetch_init endpoint o))
  /\ member "body" init
     = string_or_undefined (option_map text_of (req_body (fetch_init endpoint o))).
Proof.
  intros init.
  destruct (headers_option_replaces_default (options_object text_of o))
    as (Hh & Hother).
  fold init in Hh, Hother.
  refine (conj _ (conj _ _)).
  - rewrite Hh. destruct o as [[m |] [b |] [hs |]]; reflexivity.
  - rewrite Hother by discriminate.
    destruct o as [[m |] [b |] [hs |]]; reflexivity.
  - rewrite Hother by discriminate.
    destruct o as [[m |] [b |] [hs |]]; reflexivity.
Qed.

End JsObjectFacts.

(** ** The start-up script: sockets, spawned process, exit codes *)

Module TraceFacts.
Import Js Launcher Script Traces ScriptFacts.
Local Open Scope run_scope.

Lemma one_socket_app open evs evs' :
  one_socket open (evs ++ evs')
  = match one_socket open evs with
    | Some open' => one_socket open' evs'
    | None => None
    end.
Proof.
  revert open. induction evs as [| e evs IH]; intros open; [reflexivity |].
  destruct e; cbn [one_socket app]; try apply IH.
  - destruct open; [reflexivity | apply IH].
  - destruct open as [q |]; [| reflexivity].
    destruct (port =? q)%N; [apply IH | reflexivity].
Qed.

Lemma exits_app evs evs' : exits (evs ++ evs') = (exits evs ++ exits evs')%list.
Proof.
  induction evs as [| e evs IH]; [reflexivity |].
  destruct e; cbn [exits app]; try exact IH. now rewrite IH.
Qed.



(** The sockets of the loop of [waitForServices]. *)
Lemma loop_sockets net :
  forall fuel a p,
    a < maxAttempts -> maxAttempts - a <= fuel ->
    exists new,
      events (final (waitForServices_loop net fuel a p)) = (events p ++ new)%list
      /\ one_socket None new = Some None
      /\ exits new = [].
Proof.
  induction fuel as [| fuel IH]; intros a p Ha Hfuel; [lia |].
  cbn [waitForServices_loop].
  destruct (Nat.ltb_spec a maxAttempts) as [_ | Hge]; [| lia].
  unfold and_then at 1. unfold log_line at 1. unfold emit at 1.
  unfold and_then at 1. unfold await_promise at 1.
  match goal with
  | |- context [checkPort net 3000%N ?nm ?q] =>
      destruct (checkPort_run net 3000%N nm q) as (t1 & _ & ->);
        [unfold is_port; lia |]
  end.
  cbn [connections events].
  unfold and_then at 1. unfold await_promise at 1.
  match goal with
  | |- context [checkPort net 5001%N ?nm ?q] =>
      destruct (checkPort_run net 5001%N nm q) as (t2 & _ & ->);
        [unfold is_port; lia |]
  end.
  cbn [connections events].
  rewrite <- !app_assoc. cbn [app].
  match goal with
  | |- context [mkProc _ (events p ++ ?l)] => set (probes := l)
  end.
  assert (Hprobes : one_socket None probes = Some None) by reflexivity.
  assert (Hquiet : exits probes = []) by reflexivity.
  destruct (connects (net (connections p) 3000%N)
            && connects (net (S (connections p)) 5001%N)).
  - exists (probes ++ [Console "All services ready! Starting Electron..."])%list.
    unfold and_then, log_line, emit, pure, final. cbn [fst connections events].
    rewrite <- app_assoc, one_socket_app, Hprobes, exits_app, Hquiet.
    repeat split.
  - destruct (Nat.leb_spec maxAttempts (S a)) as [Hlast | Hmore].
    + exists (probes ++ [Console "Timeout waiting for services"])%list.
      unfold and_then, log_line, emit, pure, final. cbn [fst connections events].
      rewrite <- app_assoc, one_socket_app, Hprobes, exits_app, Hquiet.
      repeat split.
    + unfold and_then at 1. unfold emit at 1. cbn [connections events].
      match goal with
      | |- context [waitForServices_loop net fuel (S a) ?q] =>
          destruct (IH (S a) q) as (new & Hev & Hsock & Hex); [lia | lia |]
      end.
      cbn [events] in Hev.
      exists (probes ++ [Timer 2000] ++ new)%list.
      rewrite Hev, <- !app_assoc.
      rewrite one_socket_app, Hprobes, exits_app, Hquiet.
      cbn. rewrite Hsock, Hex. repeat split.
Qed.

(** X8.  [waitForServices] uses its sockets one at a time and leaves none
    open: every socket it connects is destroyed before the next one is
    connected and before it returns; it opens two per attempt, 60 at most,
    and never exits the process itself. *)
Theorem waitForServices_leaks_no_socket net fuel p :
  maxAttempts <= fuel ->
  exists new,
    events (final (waitForServices net fuel p)) = (events p ++ new)%list
    /\ one_socket None new = Some None
    /\ exits new = []
    /\ connections p < connections (final (waitForServices net fuel p))
       <= connections p + 60.
Proof.
  intros Hfuel.
  destruct (waitForServices_run net fuel p Hfuel)
    as (n & b & new0 & Hrun & Hn & _).
  assert (Hconn : connections (final (waitForServices net fuel p))
                  = connections p + 2 * n) by (now rewrite Hrun).
  rewrite Hconn. clear Hrun Hconn.
  unfold waitForServices.
  unfold and_then at 1. unfold log_line at 1. unfold emit at 1.
  match goal with
  | |- context [waitForServices_loop net fuel 0 ?q] =>
      destruct (loop_sockets net fuel 0 q) as (new & Hev & Hsock & Hex);
        [unfold maxAttempts; lia | lia |]
  end.
  cbn [events] in Hev.
  exists ([Console "Waiting for services to be ready..."] ++ new)%list.
  rewrite Hev, <- app_assoc. split; [reflexivity |].
  split; [exact Hsock |]. split; [exact Hex |].
  unfold maxAttempts in Hn. lia.
Qed.

Lemma waitForServices_leaks_no_socket_witness :
  maxAttempts <= 30
  /\ connections (final (waitForServices ready_at_third 30 start)) = 6.
Proof.
  assert (Hfuel : maxAttempts <= 30) by (unfold maxAttempts; lia).
  split; [exact Hfuel |].
  destruct (waitForServices_leaks_no_socket ready_at_third 30 start Hfuel)
    as (new & _ & _ & _ & _).
  reflexivity.
Defined.

Lemma spawns_none evs : existsb is_spawn evs = false -> spawns evs = [].
Proof.
  unfold spawns. induction evs as [| e evs IH]; [reflexivity |].
  cbn. destruct (is_spawn e); [discriminate | exact IH].
Qed.

(** What [waitForServices] adds to the events: no spawn, no exit. *)
Lemma waitForServices_events net fuel p :
  maxAttempts <= fuel ->
  exists b c new,
    waitForServices net fuel p = (mkProc c (events p ++ new), Done (Some b))
    /\ spawns new = []
    /\ exits new = [].
Proof.
  intros Hfuel.
  destruct (waitForServices_run net fuel p Hfuel)
    as (n & b & new & Hrun & _ & _ & _ & _ & _ & Hspawn).
  assert (Hexits : exits new = []).
  { assert (Hev : events (final (waitForServices net fuel p))
                  = (events p ++ new)%list) by (now rewrite Hrun).
    revert Hev. unfold waitForServices.
    unfold and_then at 1. unfold log_line at 1. unfold emit at 1.
    match goal with
    | |- context [waitForServices_loop net fuel 0 ?q] =>
        destruct (loop_sockets net fuel 0 q) as (new' & Hev' & _ & Hex);
          [unfold maxAttempts; lia | lia |]
    end.
    rewrite Hev'. cbn [events]. rewrite <- app_assoc.
    intros Hev. apply app_inv_head in Hev. subst new.
    rewrite exits_app, Hex. reflexivity. }
  exists b, (connections p + 2 * n), new.
  split; [exact Hrun |]. split; [now apply spawns_none | exact Hexits].
Qed.

(** [startElectron] is [waitForServices] followed by [after_probing]. *)
Lemma startElectron_run net child fuel p :
  maxAttempts <= fuel ->
  exists b c new,
    waitForServices net fuel p = (mkProc c (events p ++ new), Done (Some b))
    /\ spawns new = []
    /\ exits new = []
    /\ startElectron net child fuel p
       = (mkProc c (events p ++ new ++ after_probing b child),
          match exits (after_probing b child) with
          | [] => Done tt
          | _ :: _ => Exited
          end).
Proof.
  intros Hfuel.
  destruct (waitForServices_events net fuel p Hfuel)
    as (b & c & new & Hrun & Hspawn & Hexit).
  exists b, c, new. refine (conj Hrun (conj Hspawn (conj Hexit _))).
  unfold startElectron. unfold and_then at 1. rewrite Hrun.
  destruct b; [destruct child |];
    unfold and_then, log_line, emit, pure, process_exit, not_truthy;
    cbn [connections events after_probing exits app];
    rewrite <- ?app_assoc; reflexivity.
Qed.

(** X9.  [startElectron] spawns Electron once, with
    [NODE_ENV=development], exactly when [waitForServices] returned [true],
    and it ends the launcher with Electron's own exit code when Electron
    closes, with code 1 when Electron could not be started or the services
    never came up, and not at all while Electron keeps running.  The
    [catch] at the end of the script never fires: the script as a whole
    behaves as [startElectron]. *)
Theorem launcher_forwards_exit_code net child fuel p :
  maxAttempts <= fuel ->
  exists b added,
    outcome (waitForServices net fuel p) = Done (Some b)
    /\ events (final (startElectron net child fuel p)) = (events p ++ added)%list
    /\ spawns added
       = (if b then [Spawn "electron" ["."] "development"] else [])
    /\ exits added = (if b then child_exit child else [Some 1%N])
    /\ outcome (startElectron net child fuel p)
       = match exits added with [] => Done tt | _ :: _ => Exited end
    /\ main net child fuel p = startElectron net child fuel p.
Proof.
  intros Hfuel.
  destruct (startElectron_run net child fuel p Hfuel)
    as (b & c & new & Hrun & Hspawn & Hexit & Hstart).
  assert (Happ : spawns (new ++ after_probing b child)
                 = spawns (after_probing b child)
                 /\ exits (new ++ after_probing b child)
                    = exits (after_probing b child)).
  { unfold spawns in *. now rewrite filter_app, Hspawn, exits_app, Hexit. }
  destruct Happ as (Hs' & He').
  assert (Hs : spawns (after_probing b child)
               = (if b then [Spawn "electron" ["."] "development"] else [])).
  { destruct b; [destruct child |]; reflexivity. }
  assert (He : exits (after_probing b child)
               = (if b then child_exit child else [Some 1%N])).
  { destruct b; [destruct child |]; reflexivity. }
  exists b, (new ++ after_probing b child)%list.
  rewrite Hrun at 1. split; [reflexivity |].
  rewrite Hstart. cbn [final outcome fst snd events].
  rewrite Hs', He', Hs, He.
  refine (conj eq_refl (conj eq_refl (conj eq_refl (conj eq_refl _)))).
  unfold main. rewrite Hstart, He.
  destruct (if b then child_exit child else [Some 1%N]); reflexivity.
Qed.

Lemma launcher_forwards_exit_code_witness :
  maxAttempts <= 30
  /\ exits (events (final (startElectron ready_at_third (ChildCloses (Some 3%N))
                            30 start)))
     = [Some 3%N].
Proof.
  assert (Hfuel : maxAttempts <= 30) by (unfold maxAttempts; lia).
  split; [exact Hfuel |].
  destruct (launcher_forwards_exit_code ready_at_third (ChildCloses (Some 3%N))
              30 start Hfuel) as (b & added & Hb & Hev & _ & Hexits & _).
  rewrite Hev. cbn [start events app]. rewrite Hexits.
  assert (Hready : b = true) by (cbv in Hb; congruence).
  now rewrite Hready.
Defined.

End TraceFacts.

(** ** [main.js]: windows and the application life cycle *)

Module AppFacts.
Import Js App.

Lemma settled_after_ready env : settled env (dispatch env launched AppReady).
Proof. repeat split. Qed.

Lemma dispatch_settled env s e :
  settled env s -> settled env (dispatch env s e).
Proof.
  intros Hs. unfold dispatch.
  destruct (has_quit s) eqn:Hq; [exact Hs |].
  unfold settled in *.
  destruct Hs as (Hready & Herr & Hw).
  destruct s as [rd ws mw cr hq un]; cbn in *. subst rd un hq.
  destruct ws as [| w [| w' ws]]; [| | contradiction].
  - (* no window: only activation does something *)
    destruct Hw as (Hm & Hd). subst mw.
    destruct e as [| | id | id]; cbn; solve [repeat split; assumption].
  - (* one window *)
    destruct Hw as (Hm & _ & Hc & Hv). subst mw.
    destruct w as [wid wc wv wa]; cbn in *. subst wc wv.
    destruct e as [| | id | id].
    + cbn. solve [repeat split].
    + cbn. solve [repeat split].
    + unfold awaiting, on_ready_to_show, detach_show, is_open, update_window.
      cbn.
      destruct (Nat.eqb_spec wid id) as [-> | Hne]; cbn; [| solve [repeat split]].
      destruct wa; cbn; [| solve [repeat split]].
      rewrite !Nat.eqb_refl. cbn. rewrite ?Nat.eqb_refl. cbn. solve [repeat split].
    + unfold is_open, on_window_all_closed, on_closed, remove_window. cbn.
      destruct (Nat.eqb_spec wid id) as [-> | Hne]; cbn; [| solve [repeat split]].
      destruct (platform env); cbn; solve [repeat split].
Qed.

Lemma dispatch_all_settled env evs :
  forall s, settled env s -> settled env (dispatch_all env evs s).
Proof.
  unfold dispatch_all.
  induction evs as [| e evs IH]; intros s Hs; [exact Hs |].
  cbn [fold_left]. apply IH. now apply dispatch_settled.
Qed.

Lemma settled_run env evs :
  settled env (dispatch_all env (AppReady :: evs) launched).
Proof.
  unfold dispatch_all. cbn [fold_left].
  apply (dispatch_all_settled env evs), settled_after_ready.
Qed.

(** X10.  Once the application is ready, and whatever windows are closed,
    shown or re-activated afterwards, at most one window is open, the
    variable [mainWindow] is null exactly when none is and otherwise holds
    the open window, and no listener throws: the ['ready-to-show'] listener
    never finds [mainWindow] null, and the ['closed'] listener never clears
    it under another window. *)
Theorem one_window_at_most env evs :
  let s := dispatch_all env (AppReady :: evs) launched in
  uncaught s = []
  /\ List.length (windows s) <= 1
  /\ (mainWindow s = None <-> windows s = [])
  /\ (forall w, In w (windows s) -> mainWindow s = Some (w_id w)).
Proof.
  intros s. pose proof (settled_run env evs) as Hs. fold s in Hs.
  clearbody s. destruct Hs as (_ & Herr & Hw).
  split; [exact Herr |].
  destruct (windows s) as [| w [| w' ws]]; [| | contradiction].
  - destruct Hw as (Hm & _). cbn. rewrite Hm.
    split; [lia |]. split; [tauto |]. intros w [].
  - destruct Hw as (Hm & _). cbn. split; [lia |]. split.
    + rewrite Hm. split; discriminate.
    + intros x [<- | []]. exact Hm.
Qed.

Lemma one_window_at_most_witness :
  mainWindow (dispatch_all mac_packaged (AppReady :: close_and_return) launched)
  = Some 1.
Proof.
  exact (proj2 (proj2 (proj2 (one_window_at_most mac_packaged close_and_return)))
           (mkWindow 1 (BundledFile ["dist"; "index.html"]) true false)
           (or_introl eq_refl)).
Defined.

(** X11.  Once the application is ready: on macOS it never quits by
    itself, on every other platform it has quit exactly when no window is
    open, so closing the window quits there. *)
Theorem quits_with_last_window env evs :
  let s := dispatch_all env (AppReady :: evs) launched in
  if is_darwin (platform env) then has_quit s = false
  else (has_quit s = true <-> windows s = []).
Proof.
  intros s. pose proof (settled_run env evs) as Hs. fold s in Hs.
  clearbody s. destruct Hs as (_ & _ & Hw).
  destruct (windows s) as [| w [| w' ws]]; [| | contradiction].
  - destruct Hw as (_ & Hq). rewrite Hq.
    destruct (is_darwin (platform env)); cbn; [reflexivity | tauto].
  - destruct Hw as (_ & Hq & _). rewrite Hq.
    destruct (is_darwin (platform env)); [reflexivity |].
    split; discriminate.
Qed.

Lemma quits_with_last_window_witness :
  has_quit (dispatch_all linux_packaged (AppReady :: close_and_return) launched)
  = true.
Proof.
  exact (proj2 (quits_with_last_window linux_packaged close_and_return) eq_refl).
Defined.

(** X12.  Once the application is ready, an open window is visible exactly
    when it has reported ['ready-to-show'], so no window is shown before its
    page is ready; and every window, the first as well as one reopened by
    ['activate'], has loaded the same content: the Vite dev server with the
    developer tools when [NODE_ENV] is [development] or the application is
    not packaged, the bundled [dist/index.html] otherwise. *)
Theorem shown_when_ready env evs w :
  In w (windows (dispatch_all env (AppReady :: evs) launched)) ->
  w_visible w = negb (w_awaiting_show w)
  /\ w_content w
     = (if match NODE_ENV env with
           | Some v => String.eqb v "development"
           | None => false
           end || negb (isPackaged env)
        then DevServer "http://localhost:3000" true
        else BundledFile ["dist"; "index.html"]).
Proof.
  intros Hin. destruct (settled_run env evs) as (_ & _ & Hw).
  destruct (windows (dispatch_all env (AppReady :: evs) launched))
    as [| x [| x' ws]]; [destruct Hin | | contradiction].
  destruct Hin as [<- | []]. destruct Hw as (_ & _ & Hc & Hv).
  split; [exact Hv | exact Hc].
Qed.

Lemma shown_when_ready_witness :
  In (mkWindow 1 (BundledFile ["dist"; "index.html"]) true false)
     (windows (dispatch_all mac_packaged (AppReady :: close_and_return) launched))
  /\ w_content (mkWindow 1 (BundledFile ["dist"; "index.html"]) true false)
     = BundledFile ["dist"; "index.html"].
Proof.
  assert (Hin : In (mkWindow 1 (BundledFile ["dist"; "index.html"]) true false)
                   (windows (dispatch_all mac_packaged
                               (AppReady :: close_and_return) launched)))
    by (left; reflexivity).
  split; [exact Hin |].
  exact (proj2 (shown_when_ready mac_packaged close_and_return _ Hin)).
Defined.

End AppFacts.

(** ** The start-up script and the main process together *)

Module LaunchFacts.
Import Js Launcher Script Traces App ScriptFacts TraceFacts AppFacts.

Lemma spawns_in evs e : spawns evs = [] -> In e evs -> is_spawn e = false.
Proof.
  unfold spawns. intros Hnone Hin.
  destruct (is_spawn e) eqn:E; [| reflexivity].
  assert (Hf : In e (filter is_spawn evs)) by (apply filter_In; now split).
  rewrite Hnone in Hf. destruct Hf.
Qed.

(** X13.  Whenever the start-up script spawns Electron, it does so with
    [NODE_ENV=development], so every window the main process then opens,
    packaged or not and on any platform, loads http://localhost:3000 with
    the developer tools.  The spawn follows everything [waitForServices]
    did, and the last two connections the script opened before it, the
    ones of its last attempt, to port 3000 and to port 5001, were both
    accepted. *)
Theorem spawned_window_loads_probed_server
  net child fuel plat packaged evs command args node_env w :
  maxAttempts <= fuel ->
  In (Spawn command args node_env)
     (events (final (startElectron net child fuel start))) ->
  In w (windows (dispatch_all (spawned_env plat packaged node_env)
                   (AppReady :: evs) launched)) ->
  node_env = "development"
  /\ w_content w = DevServer "http://localhost:3000" true
  /\ exists n,
       1 <= n <= maxAttempts
       /\ connections (final (waitForServices net fuel start)) = 2 * n
       /\ connections (final (startElectron net child fuel start)) = 2 * n
       /\ connects (net (2 * n - 2) 3000%N) = true
       /\ connects (net (2 * n - 1) 5001%N) = true
       /\ events (final (startElectron net child fuel start))
          = (events (final (waitForServices net fuel start))
             ++ after_probing true child)%list.
Proof.
  intros Hfuel Hspawn Hin.
  destruct (startElectron_run net child fuel start Hfuel)
    as (b & c & new & Hrun & Hnone & _ & Hstart).
  rewrite Hstart in Hspawn. cbn [final fst events start app] in Hspawn.
  apply in_app_or in Hspawn. destruct Hspawn as [Hnew | Hafter].
  { apply (spawns_in _ _ Hnone) in Hnew. discriminate Hnew. }
  assert (Hb : b = true /\ node_env = "development").
  { assert (Hs : In (Spawn command args node_env)
                    (spawns (after_probing b child)))
      by (apply filter_In; split; [exact Hafter | reflexivity]).
    destruct b; [destruct child |]; cbn in Hs;
      try (destruct Hs as [Hs | []]; injection Hs as _ _ <-; now split);
      destruct Hs. }
  destruct Hb as (-> & ->).
  split; [reflexivity |]. split.
  - destruct (settled_run (spawned_env plat packaged "development") evs)
      as (_ & _ & Hw).
    destruct (windows (dispatch_all (spawned_env plat packaged "development")
                         (AppReady :: evs) launched))
      as [| x [| x' ws]]; [destruct Hin | | contradiction].
    destruct Hin as [<- | []]. destruct Hw as (_ & _ & Hc & _).
    rewrite Hc. reflexivity.
  - destruct (waitForServices_run net fuel start Hfuel)
      as (n & b' & new' & Hrun' & Hn & _ & Hat & _).
    pose proof Hrun' as Hsame. rewrite Hrun in Hsame.
    injection Hsame as Hc _ <-.
    unfold attempt_ready in Hat. apply andb_prop in Hat.
    cbn [connections start] in Hat, Hc.
    replace (0 + 2 * (n - 1)) with (2 * n - 2) in Hat by lia.
    replace (2 * n - 2 + 1) with (2 * n - 1) in Hat by lia.
    exists n. rewrite Hstart, Hrun. cbn [final fst connections events start app].
    refine (conj Hn (conj _ (conj _ (conj (proj1 Hat) (conj (proj2 Hat) _)))));
      [lia | lia | reflexivity].
Qed.

Lemma spawned_window_loads_probed_server_witness :
  maxAttempts <= 30
  /\ w_content (mkWindow 0 (DevServer "http://localhost:3000" true) false true)
     = DevServer "http://localhost:3000" true
  /\ exists n,
       connections (final (startElectron ready_at_third ChildKeepsRunning
                             30 start)) = 2 * n
       /\ connects (ready_at_third (2 * n - 2) 3000%N) = true
       /\ connects (ready_at_third (2 * n - 1) 5001%N) = true.
Proof.
  assert (Hfuel : maxAttempts <= 30) by (unfold maxAttempts; lia).
  split; [exact Hfuel |].
  destruct (spawned_window_loads_probed_server ready_at_third
              ChildKeepsRunning 30 Linux true [] "electron" ["."]
              "development"
              (mkWindow 0 (DevServer "http://localhost:3000" true) false true)
              Hfuel)
    as (_ & Hcontent & n & _ & _ & Hc & H3000 & H5001 & _).
  - vm_compute. repeat (try (left; reflexivity); right).
  - left. reflexivity.
  - split; [exact Hcontent |]. exists n. auto.
Defined.

End LaunchFacts.
